(** * Consultar estado del familiar: a verified model of the reporting CLI

    The program reads a small SQLite store of emotional check-ins and
    offers two queries ([fetch_ultimo], [fetch_historial]), three
    presenters ([print_uno], [print_tabla], [export_csv]) and a
    command-line entry point ([main]).

    Conventions of the embedding.
    - Text is a Rocq [string] holding the UTF-8 bytes of a Python [str].
      Lengths, widths and cuts count characters, not bytes; whitespace
      ([str.strip]) and case mapping ([str.upper]) are Python's for every
      character of Unicode, the case mapping by a table of the characters
      it changes.  String comparison is byte-wise lexicographic, which is
      SQLite's BINARY collation.
    - SQLite leaves open the order of rows that ORDER BY does not tell
      apart.  The model lists such rows in table order; the theorems
      about order hold for any order of such rows, or say that no two
      rows share date, shift and id.
    - A run starts when [parse_args] has returned the arguments; a
      command line it rejects ends the program before [main] does
      anything and is not a run of the model.
    - Columns are typed as the docstrings of the source describe the
      standard tuple: [id] is an integer, [comentario] may be NULL,
      every other column is text.
    - Code that can raise returns a [Result]; code that prints or reads
      threads a [World]. *)

From Stdlib Require Import String Ascii List ZArith Bool Arith Lia.
From Stdlib Require Import Permutation Sorted.
From Stdlib Require DecimalString DecimalPos DecimalZ.
Import ListNotations.

Local Open Scope string_scope.
Local Open Scope list_scope.

(** ** Exceptions and the error monad *)

Inductive Exn : Type :=
| RuntimeError (msg : string)
| SqliteError (msg : string)
| EOFError (msg : string)
| OSError (msg : string).

(** [str(e)] as the handler of [main] prints it. *)
Definition exn_message (e : Exn) : string :=
  match e with
  | RuntimeError m | SqliteError m | EOFError m | OSError m => m
  end.

Inductive Result (A : Type) : Type :=
| Ok (a : A)
| Raise (e : Exn).

Arguments Ok {A} a.
Arguments Raise {A} e.

Definition bind {A B : Type} (m : Result A) (k : A -> Result B) : Result B :=
  match m with
  | Ok a => k a
  | Raise e => Raise e
  end.

Notation "x <- m ;; k" := (bind m (fun x => k))
  (at level 61, m at next level, right associativity).

(** ** Text *)

Module Text.

(** A Python [str] is a sequence of characters; here it is the UTF-8
    encoding of that sequence.  [chars] splits the bytes into characters
    by the length the first byte of each announces; what is left at the
    end of a text cut short is one last piece. *)
Definition lead_len (c : ascii) : nat :=
  let n := nat_of_ascii c in
  if (n <? 192)%nat then 1
  else if (n <? 224)%nat then 2
  else if (n <? 240)%nat then 3
  else if (n <? 248)%nat then 4
  else 1.

Definition s1 (a : ascii) : string := String a EmptyString.
Definition s2 (a b : ascii) : string := String a (s1 b).
Definition s3 (a b c : ascii) : string := String a (s2 b c).
Definition s4 (a b c d : ascii) : string := String a (s3 b c d).

Fixpoint chars (s : string) : list string :=
  match s with
  | EmptyString => []
  | String a r1 =>
      match lead_len a with
      | 2 =>
          match r1 with
          | String b r2 => s2 a b :: chars r2
          | EmptyString => [s1 a]
          end
      | 3 =>
          match r1 with
          | String b (String c r3) => s3 a b c :: chars r3
          | String b EmptyString => [s2 a b]
          | EmptyString => [s1 a]
          end
      | 4 =>
          match r1 with
          | String b (String c (String d r4)) => s4 a b c d :: chars r4
          | String b (String c EmptyString) => [s3 a b c]
          | String b EmptyString => [s2 a b]
          | EmptyString => [s1 a]
          end
      | _ => s1 a :: chars r1
      end
  end.

(** The text of a sequence of characters. *)
Fixpoint unchars (l : list string) : string :=
  match l with
  | [] => EmptyString
  | c :: l' => c ++ unchars l'
  end.

(** [len(s)] *)
Definition len (s : string) : nat := List.length (chars s).

Fixpoint of_bytes (l : list nat) : string :=
  match l with
  | [] => EmptyString
  | n :: l' => String (ascii_of_nat n) (of_bytes l')
  end.

(** The characters [str.isspace] holds of, which [str.strip] removes:
    U+0009..U+000D, U+001C..U+0020, U+0085, U+00A0, U+1680,
    U+2000..U+200A, U+2028, U+2029, U+202F, U+205F and U+3000. *)
Definition blanks : list string :=
  map of_bytes
    [[9]; [10]; [11]; [12]; [13]; [28]; [29]; [30]; [31]; [32];
     [194; 133]; [194; 160]; [225; 154; 128]; [226; 128; 128];
     [226; 128; 129]; [226; 128; 130]; [226; 128; 131]; [226; 128; 132];
     [226; 128; 133]; [226; 128; 134]; [226; 128; 135]; [226; 128; 136];
     [226; 128; 137]; [226; 128; 138]; [226; 128; 168]; [226; 128; 169];
     [226; 128; 175]; [226; 129; 159]; [227; 128; 128]].

Definition is_blank (c : string) : bool := existsb (String.eqb c) blanks.

Fixpoint drop_blanks (l : list string) : list string :=
  match l with
  | [] => []
  | c :: l' => if is_blank c then drop_blanks l' else l
  end.

Fixpoint drop_blanks_end (l : list string) : list string :=
  match l with
  | [] => []
  | c :: l' =>
      match drop_blanks_end l' with
      | [] => if is_blank c then [] else [c]
      | t => c :: t
      end
  end.

(** [s.strip()] *)
Definition strip (s : string) : string :=
  unchars (drop_blanks_end (drop_blanks (chars s))).

(** The characters above U+007F that [str.upper] changes, each with what
    it becomes (Unicode 14, the tables of Python 3.11). *)
Definition case_table : list (string * string) :=
  [
  ("µ", "Μ"); ("ß", "SS"); ("à", "À"); ("á", "Á"); ("â", "Â");
  ("ã", "Ã"); ("ä", "Ä"); ("å", "Å"); ("æ", "Æ"); ("ç", "Ç");
  ("è", "È"); ("é", "É"); ("ê", "Ê"); ("ë", "Ë"); ("ì", "Ì");
  ("í", "Í"); ("î", "Î"); ("ï", "Ï"); ("ð", "Ð"); ("ñ", "Ñ");
  ("ò", "Ò"); ("ó", "Ó"); ("ô", "Ô"); ("õ", "Õ"); ("ö", "Ö");
  ("ø", "Ø"); ("ù", "Ù"); ("ú", "Ú"); ("û", "Û"); ("ü", "Ü");
  ("ý", "Ý"); ("þ", "Þ"); ("ÿ", "Ÿ"); ("ā", "Ā"); ("ă", "Ă");
  ("ą", "Ą"); ("ć", "Ć"); ("ĉ", "Ĉ"); ("ċ", "Ċ"); ("č", "Č");
  ("ď", "Ď"); ("đ", "Đ"); ("ē", "Ē"); ("ĕ", "Ĕ"); ("ė", "Ė");
  ("ę", "Ę"); ("ě", "Ě"); ("ĝ", "Ĝ"); ("ğ", "Ğ"); ("ġ", "Ġ");
  ("ģ", "Ģ"); ("ĥ", "Ĥ"); ("ħ", "Ħ"); ("ĩ", "Ĩ"); ("ī", "Ī");
  ("ĭ", "Ĭ"); ("į", "Į"); ("ı", "I"); ("ĳ", "Ĳ"); ("ĵ", "Ĵ");
  ("ķ", "Ķ"); ("ĺ", "Ĺ"); ("ļ", "Ļ"); ("ľ", "Ľ"); ("ŀ", "Ŀ");
  ("ł", "Ł"); ("ń", "Ń"); ("ņ", "Ņ"); ("ň", "Ň"); ("ŉ", "ʼN");
  ("ŋ", "Ŋ"); ("ō", "Ō"); ("ŏ", "Ŏ"); ("ő", "Ő"); ("œ", "Œ");
  ("ŕ", "Ŕ"); ("ŗ", "Ŗ"); ("ř", "Ř"); ("ś", "Ś"); ("ŝ", "Ŝ");
  ("ş", "Ş"); ("š", "Š"); ("ţ", "Ţ"); ("ť", "Ť"); ("ŧ", "Ŧ");
  ("ũ", "Ũ"); ("ū", "Ū"); ("ŭ", "Ŭ"); ("ů", "Ů"); ("ű", "Ű");
  ("ų", "Ų"); ("ŵ", "Ŵ"); ("ŷ", "Ŷ"); ("ź", "Ź"); ("ż", "Ż");
  ("ž", "Ž"); ("ſ", "S"); ("ƀ", "Ƀ"); ("ƃ", "Ƃ"); ("ƅ", "Ƅ");
  ("ƈ", "Ƈ"); ("ƌ", "Ƌ"); ("ƒ", "Ƒ"); ("ƕ", "Ƕ"); ("ƙ", "Ƙ");
  ("ƚ", "Ƚ"); ("ƞ", "Ƞ"); ("ơ", "Ơ"); ("ƣ", "Ƣ"); ("ƥ", "Ƥ");
  ("ƨ", "Ƨ"); ("ƭ", "Ƭ"); ("ư", "Ư"); ("ƴ", "Ƴ"); ("ƶ", "Ƶ");
  ("ƹ", "Ƹ"); ("ƽ", "Ƽ"); ("ƿ", "Ƿ"); ("ǅ", "Ǆ"); ("ǆ", "Ǆ");
  ("ǈ", "Ǉ"); ("ǉ", "Ǉ"); ("ǋ", "Ǌ"); ("ǌ", "Ǌ"); ("ǎ", "Ǎ");
  ("ǐ", "Ǐ"); ("ǒ", "Ǒ"); ("ǔ", "Ǔ"); ("ǖ", "Ǖ"); ("ǘ", "Ǘ");
  ("ǚ", "Ǚ"); ("ǜ", "Ǜ"); ("ǝ", "Ǝ"); ("ǟ", "Ǟ"); ("ǡ", "Ǡ");
  ("ǣ", "Ǣ"); ("ǥ", "Ǥ"); ("ǧ", "Ǧ"); ("ǩ", "Ǩ"); ("ǫ", "Ǫ");
  ("ǭ", "Ǭ"); ("ǯ", "Ǯ"); ("ǰ", "J̌"); ("ǲ", "Ǳ"); ("ǳ", "Ǳ");
  ("ǵ", "Ǵ"); ("ǹ", "Ǹ"); ("ǻ", "Ǻ"); ("ǽ", "Ǽ"); ("ǿ", "Ǿ");
  ("ȁ", "Ȁ"); ("ȃ", "Ȃ"); ("ȅ", "Ȅ"); ("ȇ", "Ȇ"); ("ȉ", "Ȉ");
  ("ȋ", "Ȋ"); ("ȍ", "Ȍ"); ("ȏ", "Ȏ"); ("ȑ", "Ȑ"); ("ȓ", "Ȓ");
  ("ȕ", "Ȕ"); ("ȗ", "Ȗ"); ("ș", "Ș"); ("ț", "Ț"); ("ȝ", "Ȝ");
  ("ȟ", "Ȟ"); ("ȣ", "Ȣ"); ("ȥ", "Ȥ"); ("ȧ", "Ȧ"); ("ȩ", "Ȩ");
  ("ȫ", "Ȫ"); ("ȭ", "Ȭ"); ("ȯ", "Ȯ"); ("ȱ", "Ȱ"); ("ȳ", "Ȳ");
  ("ȼ", "Ȼ"); ("ȿ", "Ȿ"); ("ɀ", "Ɀ"); ("ɂ", "Ɂ"); ("ɇ", "Ɇ");
  ("ɉ", "Ɉ"); ("ɋ", "Ɋ"); ("ɍ", "Ɍ"); ("ɏ", "Ɏ"); ("ɐ", "Ɐ");
  ("ɑ", "Ɑ"); ("ɒ", "Ɒ"); ("ɓ", "Ɓ"); ("ɔ", "Ɔ"); ("ɖ", "Ɖ");
  ("ɗ", "Ɗ"); ("ə", "Ə"); ("ɛ", "Ɛ"); ("ɜ", "Ɜ"); ("ɠ", "Ɠ");
  ("ɡ", "Ɡ"); ("ɣ", "Ɣ"); ("ɥ", "Ɥ"); ("ɦ", "Ɦ"); ("ɨ", "Ɨ");
  ("ɩ", "Ɩ"); ("ɪ", "Ɪ"); ("ɫ", "Ɫ"); ("ɬ", "Ɬ"); ("ɯ", "Ɯ");
  ("ɱ", "Ɱ"); ("ɲ", "Ɲ"); ("ɵ", "Ɵ"); ("ɽ", "Ɽ"); ("ʀ", "Ʀ");
  ("ʂ", "Ʂ"); ("ʃ", "Ʃ"); ("ʇ", "Ʇ"); ("ʈ", "Ʈ"); ("ʉ", "Ʉ");
  ("ʊ", "Ʊ"); ("ʋ", "Ʋ"); ("ʌ", "Ʌ"); ("ʒ", "Ʒ"); ("ʝ", "Ʝ");
  ("ʞ", "Ʞ"); ("ͅ", "Ι"); ("ͱ", "Ͱ"); ("ͳ", "Ͳ"); ("ͷ", "Ͷ");
  ("ͻ", "Ͻ"); ("ͼ", "Ͼ"); ("ͽ", "Ͽ"); ("ΐ", "Ϊ́"); ("ά", "Ά");
  ("έ", "Έ"); ("ή", "Ή"); ("ί", "Ί"); ("ΰ", "Ϋ́"); ("α", "Α");
  ("β", "Β"); ("γ", "Γ"); ("δ", "Δ"); ("ε", "Ε"); ("ζ", "Ζ");
  ("η", "Η"); ("θ", "Θ"); ("ι", "Ι"); ("κ", "Κ"); ("λ", "Λ");
  ("μ", "Μ"); ("ν", "Ν"); ("ξ", "Ξ"); ("ο", "Ο"); ("π", "Π");
  ("ρ", "Ρ"); ("ς", "Σ"); ("σ", "Σ"); ("τ", "Τ"); ("υ", "Υ");
  ("φ", "Φ"); ("χ", "Χ"); ("ψ", "Ψ"); ("ω", "Ω"); ("ϊ", "Ϊ");
  ("ϋ", "Ϋ"); ("ό", "Ό"); ("ύ", "Ύ"); ("ώ", "Ώ"); ("ϐ", "Β");
  ("ϑ", "Θ"); ("ϕ", "Φ"); ("ϖ", "Π"); ("ϗ", "Ϗ"); ("ϙ", "Ϙ");
  ("ϛ", "Ϛ"); ("ϝ", "Ϝ"); ("ϟ", "Ϟ"); ("ϡ", "Ϡ"); ("ϣ", "Ϣ");
  ("ϥ", "Ϥ"); ("ϧ", "Ϧ"); ("ϩ", "Ϩ"); ("ϫ", "Ϫ"); ("ϭ", "Ϭ");
  ("ϯ", "Ϯ"); ("ϰ", "Κ"); ("ϱ", "Ρ"); ("ϲ", "Ϲ"); ("ϳ", "Ϳ");
  ("ϵ", "Ε"); ("ϸ", "Ϸ"); ("ϻ", "Ϻ"); ("а", "А"); ("б", "Б");
  ("в", "В"); ("г", "Г"); ("д", "Д"); ("е", "Е"); ("ж", "Ж");
  ("з", "З"); ("и", "И"); ("й", "Й"); ("к", "К"); ("л", "Л");
  ("м", "М"); ("н", "Н"); ("о", "О"); ("п", "П"); ("р", "Р");
  ("с", "С"); ("т", "Т"); ("у", "У"); ("ф", "Ф"); ("х", "Х");
  ("ц", "Ц"); ("ч", "Ч"); ("ш", "Ш"); ("щ", "Щ"); ("ъ", "Ъ");
  ("ы", "Ы"); ("ь", "Ь"); ("э", "Э"); ("ю", "Ю"); ("я", "Я");
  ("ѐ", "Ѐ"); ("ё", "Ё"); ("ђ", "Ђ"); ("ѓ", "Ѓ"); ("є", "Є");
  ("ѕ", "Ѕ"); ("і", "І"); ("ї", "Ї"); ("ј", "Ј"); ("љ", "Љ");
  ("њ", "Њ"); ("ћ", "Ћ"); ("ќ", "Ќ"); ("ѝ", "Ѝ"); ("ў", "Ў");
  ("џ", "Џ"); ("ѡ", "Ѡ"); ("ѣ", "Ѣ"); ("ѥ", "Ѥ"); ("ѧ", "Ѧ");
  ("ѩ", "Ѩ"); ("ѫ", "Ѫ"); ("ѭ", "Ѭ"); ("ѯ", "Ѯ"); ("ѱ", "Ѱ");
  ("ѳ", "Ѳ"); ("ѵ", "Ѵ"); ("ѷ", "Ѷ"); ("ѹ", "Ѹ"); ("ѻ", "Ѻ");
  ("ѽ", "Ѽ"); ("ѿ", "Ѿ"); ("ҁ", "Ҁ"); ("ҋ", "Ҋ"); ("ҍ", "Ҍ");
  ("ҏ", "Ҏ"); ("ґ", "Ґ"); ("ғ", "Ғ"); ("ҕ", "Ҕ"); ("җ", "Җ");
  ("ҙ", "Ҙ"); ("қ", "Қ"); ("ҝ", "Ҝ"); ("ҟ", "Ҟ"); ("ҡ", "Ҡ");
  ("ң", "Ң"); ("ҥ", "Ҥ"); ("ҧ", "Ҧ"); ("ҩ", "Ҩ"); ("ҫ", "Ҫ");
  ("ҭ", "Ҭ"); ("ү", "Ү"); ("ұ", "Ұ"); ("ҳ", "Ҳ"); ("ҵ", "Ҵ");
  ("ҷ", "Ҷ"); ("ҹ", "Ҹ"); ("һ", "Һ"); ("ҽ", "Ҽ"); ("ҿ", "Ҿ");
  ("ӂ", "Ӂ"); ("ӄ", "Ӄ"); ("ӆ", "Ӆ"); ("ӈ", "Ӈ"); ("ӊ", "Ӊ");
  ("ӌ", "Ӌ"); ("ӎ", "Ӎ"); ("ӏ", "Ӏ"); ("ӑ", "Ӑ"); ("ӓ", "Ӓ");
  ("ӕ", "Ӕ"); ("ӗ", "Ӗ"); ("ә", "Ә"); ("ӛ", "Ӛ"); ("ӝ", "Ӝ");
  ("ӟ", "Ӟ"); ("ӡ", "Ӡ"); ("ӣ", "Ӣ"); ("ӥ", "Ӥ"); ("ӧ", "Ӧ");
  ("ө", "Ө"); ("ӫ", "Ӫ"); ("ӭ", "Ӭ"); ("ӯ", "Ӯ"); ("ӱ", "Ӱ");
  ("ӳ", "Ӳ"); ("ӵ", "Ӵ"); ("ӷ", "Ӷ"); ("ӹ", "Ӹ"); ("ӻ", "Ӻ");
  ("ӽ", "Ӽ"); ("ӿ", "Ӿ"); ("ԁ", "Ԁ"); ("ԃ", "Ԃ"); ("ԅ", "Ԅ");
  ("ԇ", "Ԇ"); ("ԉ", "Ԉ"); ("ԋ", "Ԋ"); ("ԍ", "Ԍ"); ("ԏ", "Ԏ");
  ("ԑ", "Ԑ"); ("ԓ", "Ԓ"); ("ԕ", "Ԕ"); ("ԗ", "Ԗ"); ("ԙ", "Ԙ");
  ("ԛ", "Ԛ"); ("ԝ", "Ԝ"); ("ԟ", "Ԟ"); ("ԡ", "Ԡ"); ("ԣ", "Ԣ");
  ("ԥ", "Ԥ"); ("ԧ", "Ԧ"); ("ԩ", "Ԩ"); ("ԫ", "Ԫ"); ("ԭ", "Ԭ");
  ("ԯ", "Ԯ"); ("ա", "Ա"); ("բ", "Բ"); ("գ", "Գ"); ("դ", "Դ");
  ("ե", "Ե"); ("զ", "Զ"); ("է", "Է"); ("ը", "Ը"); ("թ", "Թ");
  ("ժ", "Ժ"); ("ի", "Ի"); ("լ", "Լ"); ("խ", "Խ"); ("ծ", "Ծ");
  ("կ", "Կ"); ("հ", "Հ"); ("ձ", "Ձ"); ("ղ", "Ղ"); ("ճ", "Ճ");
  ("մ", "Մ"); ("յ", "Յ"); ("ն", "Ն"); ("շ", "Շ"); ("ո", "Ո");
  ("չ", "Չ"); ("պ", "Պ"); ("ջ", "Ջ"); ("ռ", "Ռ"); ("ս", "Ս");
  ("վ", "Վ"); ("տ", "Տ"); ("ր", "Ր"); ("ց", "Ց"); ("ւ", "Ւ");
  ("փ", "Փ"); ("ք", "Ք"); ("օ", "Օ"); ("ֆ", "Ֆ"); ("և", "ԵՒ");
  ("ა", "Ა"); ("ბ", "Ბ"); ("გ", "Გ"); ("დ", "Დ");
  ("ე", "Ე"); ("ვ", "Ვ"); ("ზ", "Ზ"); ("თ", "Თ");
  ("ი", "Ი"); ("კ", "Კ"); ("ლ", "Ლ"); ("მ", "Მ");
  ("ნ", "Ნ"); ("ო", "Ო"); ("პ", "Პ"); ("ჟ", "Ჟ");
  ("რ", "Რ"); ("ს", "Ს"); ("ტ", "Ტ"); ("უ", "Უ");
  ("ფ", "Ფ"); ("ქ", "Ქ"); ("ღ", "Ღ"); ("ყ", "Ყ");
  ("შ", "Შ"); ("ჩ", "Ჩ"); ("ც", "Ც"); ("ძ", "Ძ");
  ("წ", "Წ"); ("ჭ", "Ჭ"); ("ხ", "Ხ"); ("ჯ", "Ჯ");
  ("ჰ", "Ჰ"); ("ჱ", "Ჱ"); ("ჲ", "Ჲ"); ("ჳ", "Ჳ");
  ("ჴ", "Ჴ"); ("ჵ", "Ჵ"); ("ჶ", "Ჶ"); ("ჷ", "Ჷ");
  ("ჸ", "Ჸ"); ("ჹ", "Ჹ"); ("ჺ", "Ჺ"); ("ჽ", "Ჽ");
  ("ჾ", "Ჾ"); ("ჿ", "Ჿ"); ("ᏸ", "Ᏸ"); ("ᏹ", "Ᏹ");
  ("ᏺ", "Ᏺ"); ("ᏻ", "Ᏻ"); ("ᏼ", "Ᏼ"); ("ᏽ", "Ᏽ");
  ("ᲀ", "В"); ("ᲁ", "Д"); ("ᲂ", "О"); ("ᲃ", "С");
  ("ᲄ", "Т"); ("ᲅ", "Т"); ("ᲆ", "Ъ"); ("ᲇ", "Ѣ");
  ("ᲈ", "Ꙋ"); ("ᵹ", "Ᵹ"); ("ᵽ", "Ᵽ"); ("ᶎ", "Ᶎ");
  ("ḁ", "Ḁ"); ("ḃ", "Ḃ"); ("ḅ", "Ḅ"); ("ḇ", "Ḇ");
  ("ḉ", "Ḉ"); ("ḋ", "Ḋ"); ("ḍ", "Ḍ"); ("ḏ", "Ḏ");
  ("ḑ", "Ḑ"); ("ḓ", "Ḓ"); ("ḕ", "Ḕ"); ("ḗ", "Ḗ");
  ("ḙ", "Ḙ"); ("ḛ", "Ḛ"); ("ḝ", "Ḝ"); ("ḟ", "Ḟ");
  ("ḡ", "Ḡ"); ("ḣ", "Ḣ"); ("ḥ", "Ḥ"); ("ḧ", "Ḧ");
  ("ḩ", "Ḩ"); ("ḫ", "Ḫ"); ("ḭ", "Ḭ"); ("ḯ", "Ḯ");
  ("ḱ", "Ḱ"); ("ḳ", "Ḳ"); ("ḵ", "Ḵ"); ("ḷ", "Ḷ");
  ("ḹ", "Ḹ"); ("ḻ", "Ḻ"); ("ḽ", "Ḽ"); ("ḿ", "Ḿ");
  ("ṁ", "Ṁ"); ("ṃ", "Ṃ"); ("ṅ", "Ṅ"); ("ṇ", "Ṇ");
  ("ṉ", "Ṉ"); ("ṋ", "Ṋ"); ("ṍ", "Ṍ"); ("ṏ", "Ṏ");
  ("ṑ", "Ṑ"); ("ṓ", "Ṓ"); ("ṕ", "Ṕ"); ("ṗ", "Ṗ");
  ("ṙ", "Ṙ"); ("ṛ", "Ṛ"); ("ṝ", "Ṝ"); ("ṟ", "Ṟ");
  ("ṡ", "Ṡ"); ("ṣ", "Ṣ"); ("ṥ", "Ṥ"); ("ṧ", "Ṧ");
  ("ṩ", "Ṩ"); ("ṫ", "Ṫ"); ("ṭ", "Ṭ"); ("ṯ", "Ṯ");
  ("ṱ", "Ṱ"); ("ṳ", "Ṳ"); ("ṵ", "Ṵ"); ("ṷ", "Ṷ");
  ("ṹ", "Ṹ"); ("ṻ", "Ṻ"); ("ṽ", "Ṽ"); ("ṿ", "Ṿ");
  ("ẁ", "Ẁ"); ("ẃ", "Ẃ"); ("ẅ", "Ẅ"); ("ẇ", "Ẇ");
  ("ẉ", "Ẉ"); ("ẋ", "Ẋ"); ("ẍ", "Ẍ"); ("ẏ", "Ẏ");
  ("ẑ", "Ẑ"); ("ẓ", "Ẓ"); ("ẕ", "Ẕ"); ("ẖ", "H̱");
  ("ẗ", "T̈"); ("ẘ", "W̊"); ("ẙ", "Y̊"); ("ẚ", "Aʾ");
  ("ẛ", "Ṡ"); ("ạ", "Ạ"); ("ả", "Ả"); ("ấ", "Ấ");
  ("ầ", "Ầ"); ("ẩ", "Ẩ"); ("ẫ", "Ẫ"); ("ậ", "Ậ");
  ("ắ", "Ắ"); ("ằ", "Ằ"); ("ẳ", "Ẳ"); ("ẵ", "Ẵ");
  ("ặ", "Ặ"); ("ẹ", "Ẹ"); ("ẻ", "Ẻ"); ("ẽ", "Ẽ");
  ("ế", "Ế"); ("ề", "Ề"); ("ể", "Ể"); ("ễ", "Ễ");
  ("ệ", "Ệ"); ("ỉ", "Ỉ"); ("ị", "Ị"); ("ọ", "Ọ");
  ("ỏ", "Ỏ"); ("ố", "Ố"); ("ồ", "Ồ"); ("ổ", "Ổ");
  ("ỗ", "Ỗ"); ("ộ", "Ộ"); ("ớ", "Ớ"); ("ờ", "Ờ");
  ("ở", "Ở"); ("ỡ", "Ỡ"); ("ợ", "Ợ"); ("ụ", "Ụ");
  ("ủ", "Ủ"); ("ứ", "Ứ"); ("ừ", "Ừ"); ("ử", "Ử");
  ("ữ", "Ữ"); ("ự", "Ự"); ("ỳ", "Ỳ"); ("ỵ", "Ỵ");
  ("ỷ", "Ỷ"); ("ỹ", "Ỹ"); ("ỻ", "Ỻ"); ("ỽ", "Ỽ");
  ("ỿ", "Ỿ"); ("ἀ", "Ἀ"); ("ἁ", "Ἁ"); ("ἂ", "Ἂ");
  ("ἃ", "Ἃ"); ("ἄ", "Ἄ"); ("ἅ", "Ἅ"); ("ἆ", "Ἆ");
  ("ἇ", "Ἇ"); ("ἐ", "Ἐ"); ("ἑ", "Ἑ"); ("ἒ", "Ἒ");
  ("ἓ", "Ἓ"); ("ἔ", "Ἔ"); ("ἕ", "Ἕ"); ("ἠ", "Ἠ");
  ("ἡ", "Ἡ"); ("ἢ", "Ἢ"); ("ἣ", "Ἣ"); ("ἤ", "Ἤ");
  ("ἥ", "Ἥ"); ("ἦ", "Ἦ"); ("ἧ", "Ἧ"); ("ἰ", "Ἰ");
  ("ἱ", "Ἱ"); ("ἲ", "Ἲ"); ("ἳ", "Ἳ"); ("ἴ", "Ἴ");
  ("ἵ", "Ἵ"); ("ἶ", "Ἶ"); ("ἷ", "Ἷ"); ("ὀ", "Ὀ");
  ("ὁ", "Ὁ"); ("ὂ", "Ὂ"); ("ὃ", "Ὃ"); ("ὄ", "Ὄ");
  ("ὅ", "Ὅ"); ("ὐ", "Υ̓"); ("ὑ", "Ὑ"); ("ὒ", "Υ̓̀");
  ("ὓ", "Ὓ"); ("ὔ", "Υ̓́"); ("ὕ", "Ὕ"); ("ὖ", "Υ̓͂");
  ("ὗ", "Ὗ"); ("ὠ", "Ὠ"); ("ὡ", "Ὡ"); ("ὢ", "Ὢ");
  ("ὣ", "Ὣ"); ("ὤ", "Ὤ"); ("ὥ", "Ὥ"); ("ὦ", "Ὦ");
  ("ὧ", "Ὧ"); ("ὰ", "Ὰ"); ("ά", "Ά"); ("ὲ", "Ὲ");
  ("έ", "Έ"); ("ὴ", "Ὴ"); ("ή", "Ή"); ("ὶ", "Ὶ");
  ("ί", "Ί"); ("ὸ", "Ὸ"); ("ό", "Ό"); ("ὺ", "Ὺ");
  ("ύ", "Ύ"); ("ὼ", "Ὼ"); ("ώ", "Ώ"); ("ᾀ", "ἈΙ");
  ("ᾁ", "ἉΙ"); ("ᾂ", "ἊΙ"); ("ᾃ", "ἋΙ"); ("ᾄ", "ἌΙ");
  ("ᾅ", "ἍΙ"); ("ᾆ", "ἎΙ"); ("ᾇ", "ἏΙ"); ("ᾈ", "ἈΙ");
  ("ᾉ", "ἉΙ"); ("ᾊ", "ἊΙ"); ("ᾋ", "ἋΙ"); ("ᾌ", "ἌΙ");
  ("ᾍ", "ἍΙ"); ("ᾎ", "ἎΙ"); ("ᾏ", "ἏΙ"); ("ᾐ", "ἨΙ");
  ("ᾑ", "ἩΙ"); ("ᾒ", "ἪΙ"); ("ᾓ", "ἫΙ"); ("ᾔ", "ἬΙ");
  ("ᾕ", "ἭΙ"); ("ᾖ", "ἮΙ"); ("ᾗ", "ἯΙ"); ("ᾘ", "ἨΙ");
  ("ᾙ", "ἩΙ"); ("ᾚ", "ἪΙ"); ("ᾛ", "ἫΙ"); ("ᾜ", "ἬΙ");
  ("ᾝ", "ἭΙ"); ("ᾞ", "ἮΙ"); ("ᾟ", "ἯΙ"); ("ᾠ", "ὨΙ");
  ("ᾡ", "ὩΙ"); ("ᾢ", "ὪΙ"); ("ᾣ", "ὫΙ"); ("ᾤ", "ὬΙ");
  ("ᾥ", "ὭΙ"); ("ᾦ", "ὮΙ"); ("ᾧ", "ὯΙ"); ("ᾨ", "ὨΙ");
  ("ᾩ", "ὩΙ"); ("ᾪ", "ὪΙ"); ("ᾫ", "ὫΙ"); ("ᾬ", "ὬΙ");
  ("ᾭ", "ὭΙ"); ("ᾮ", "ὮΙ"); ("ᾯ", "ὯΙ"); ("ᾰ", "Ᾰ");
  ("ᾱ", "Ᾱ"); ("ᾲ", "ᾺΙ"); ("ᾳ", "ΑΙ"); ("ᾴ", "ΆΙ");
  ("ᾶ", "Α͂"); ("ᾷ", "Α͂Ι"); ("ᾼ", "ΑΙ"); ("ι", "Ι");
  ("ῂ", "ῊΙ"); ("ῃ", "ΗΙ"); ("ῄ", "ΉΙ"); ("ῆ", "Η͂");
  ("ῇ", "Η͂Ι"); ("ῌ", "ΗΙ"); ("ῐ", "Ῐ"); ("ῑ", "Ῑ");
  ("ῒ", "Ϊ̀"); ("ΐ", "Ϊ́"); ("ῖ", "Ι͂"); ("ῗ", "Ϊ͂");
  ("ῠ", "Ῠ"); ("ῡ", "Ῡ"); ("ῢ", "Ϋ̀"); ("ΰ", "Ϋ́");
  ("ῤ", "Ρ̓"); ("ῥ", "Ῥ"); ("ῦ", "Υ͂"); ("ῧ", "Ϋ͂");
  ("ῲ", "ῺΙ"); ("ῳ", "ΩΙ"); ("ῴ", "ΏΙ"); ("ῶ", "Ω͂");
  ("ῷ", "Ω͂Ι"); ("ῼ", "ΩΙ"); ("ⅎ", "Ⅎ"); ("ⅰ", "Ⅰ");
  ("ⅱ", "Ⅱ"); ("ⅲ", "Ⅲ"); ("ⅳ", "Ⅳ"); ("ⅴ", "Ⅴ");
  ("ⅵ", "Ⅵ"); ("ⅶ", "Ⅶ"); ("ⅷ", "Ⅷ"); ("ⅸ", "Ⅸ");
  ("ⅹ", "Ⅹ"); ("ⅺ", "Ⅺ"); ("ⅻ", "Ⅻ"); ("ⅼ", "Ⅼ");
  ("ⅽ", "Ⅽ"); ("ⅾ", "Ⅾ"); ("ⅿ", "Ⅿ"); ("ↄ", "Ↄ");
  ("ⓐ", "Ⓐ"); ("ⓑ", "Ⓑ"); ("ⓒ", "Ⓒ"); ("ⓓ", "Ⓓ");
  ("ⓔ", "Ⓔ"); ("ⓕ", "Ⓕ"); ("ⓖ", "Ⓖ"); ("ⓗ", "Ⓗ");
  ("ⓘ", "Ⓘ"); ("ⓙ", "Ⓙ"); ("ⓚ", "Ⓚ"); ("ⓛ", "Ⓛ");
  ("ⓜ", "Ⓜ"); ("ⓝ", "Ⓝ"); ("ⓞ", "Ⓞ"); ("ⓟ", "Ⓟ");
  ("ⓠ", "Ⓠ"); ("ⓡ", "Ⓡ"); ("ⓢ", "Ⓢ"); ("ⓣ", "Ⓣ");
  ("ⓤ", "Ⓤ"); ("ⓥ", "Ⓥ"); ("ⓦ", "Ⓦ"); ("ⓧ", "Ⓧ");
  ("ⓨ", "Ⓨ"); ("ⓩ", "Ⓩ"); ("ⰰ", "Ⰰ"); ("ⰱ", "Ⰱ");
  ("ⰲ", "Ⰲ"); ("ⰳ", "Ⰳ"); ("ⰴ", "Ⰴ"); ("ⰵ", "Ⰵ");
  ("ⰶ", "Ⰶ"); ("ⰷ", "Ⰷ"); ("ⰸ", "Ⰸ"); ("ⰹ", "Ⰹ");
  ("ⰺ", "Ⰺ"); ("ⰻ", "Ⰻ"); ("ⰼ", "Ⰼ"); ("ⰽ", "Ⰽ");
  ("ⰾ", "Ⰾ"); ("ⰿ", "Ⰿ"); ("ⱀ", "Ⱀ"); ("ⱁ", "Ⱁ");
  ("ⱂ", "Ⱂ"); ("ⱃ", "Ⱃ"); ("ⱄ", "Ⱄ"); ("ⱅ", "Ⱅ");
  ("ⱆ", "Ⱆ"); ("ⱇ", "Ⱇ"); ("ⱈ", "Ⱈ"); ("ⱉ", "Ⱉ");
  ("ⱊ", "Ⱊ"); ("ⱋ", "Ⱋ"); ("ⱌ", "Ⱌ"); ("ⱍ", "Ⱍ");
  ("ⱎ", "Ⱎ"); ("ⱏ", "Ⱏ"); ("ⱐ", "Ⱐ"); ("ⱑ", "Ⱑ");
  ("ⱒ", "Ⱒ"); ("ⱓ", "Ⱓ"); ("ⱔ", "Ⱔ"); ("ⱕ", "Ⱕ");
  ("ⱖ", "Ⱖ"); ("ⱗ", "Ⱗ"); ("ⱘ", "Ⱘ"); ("ⱙ", "Ⱙ");
  ("ⱚ", "Ⱚ"); ("ⱛ", "Ⱛ"); ("ⱜ", "Ⱜ"); ("ⱝ", "Ⱝ");
  ("ⱞ", "Ⱞ"); ("ⱟ", "Ⱟ"); ("ⱡ", "Ⱡ"); ("ⱥ", "Ⱥ");
  ("ⱦ", "Ⱦ"); ("ⱨ", "Ⱨ"); ("ⱪ", "Ⱪ"); ("ⱬ", "Ⱬ");
  ("ⱳ", "Ⱳ"); ("ⱶ", "Ⱶ"); ("ⲁ", "Ⲁ"); ("ⲃ", "Ⲃ");
  ("ⲅ", "Ⲅ"); ("ⲇ", "Ⲇ"); ("ⲉ", "Ⲉ"); ("ⲋ", "Ⲋ");
  ("ⲍ", "Ⲍ"); ("ⲏ", "Ⲏ"); ("ⲑ", "Ⲑ"); ("ⲓ", "Ⲓ");
  ("ⲕ", "Ⲕ"); ("ⲗ", "Ⲗ"); ("ⲙ", "Ⲙ"); ("ⲛ", "Ⲛ");
  ("ⲝ", "Ⲝ"); ("ⲟ", "Ⲟ"); ("ⲡ", "Ⲡ"); ("ⲣ", "Ⲣ");
  ("ⲥ", "Ⲥ"); ("ⲧ", "Ⲧ"); ("ⲩ", "Ⲩ"); ("ⲫ", "Ⲫ");
  ("ⲭ", "Ⲭ"); ("ⲯ", "Ⲯ"); ("ⲱ", "Ⲱ"); ("ⲳ", "Ⲳ");
  ("ⲵ", "Ⲵ"); ("ⲷ", "Ⲷ"); ("ⲹ", "Ⲹ"); ("ⲻ", "Ⲻ");
  ("ⲽ", "Ⲽ"); ("ⲿ", "Ⲿ"); ("ⳁ", "Ⳁ"); ("ⳃ", "Ⳃ");
  ("ⳅ", "Ⳅ"); ("ⳇ", "Ⳇ"); ("ⳉ", "Ⳉ"); ("ⳋ", "Ⳋ");
  ("ⳍ", "Ⳍ"); ("ⳏ", "Ⳏ"); ("ⳑ", "Ⳑ"); ("ⳓ", "Ⳓ");
  ("ⳕ", "Ⳕ"); ("ⳗ", "Ⳗ"); ("ⳙ", "Ⳙ"); ("ⳛ", "Ⳛ");
  ("ⳝ", "Ⳝ"); ("ⳟ", "Ⳟ"); ("ⳡ", "Ⳡ"); ("ⳣ", "Ⳣ");
  ("ⳬ", "Ⳬ"); ("ⳮ", "Ⳮ"); ("ⳳ", "Ⳳ"); ("ⴀ", "Ⴀ");
  ("ⴁ", "Ⴁ"); ("ⴂ", "Ⴂ"); ("ⴃ", "Ⴃ"); ("ⴄ", "Ⴄ");
  ("ⴅ", "Ⴅ"); ("ⴆ", "Ⴆ"); ("ⴇ", "Ⴇ"); ("ⴈ", "Ⴈ");
  ("ⴉ", "Ⴉ"); ("ⴊ", "Ⴊ"); ("ⴋ", "Ⴋ"); ("ⴌ", "Ⴌ");
  ("ⴍ", "Ⴍ"); ("ⴎ", "Ⴎ"); ("ⴏ", "Ⴏ"); ("ⴐ", "Ⴐ");
  ("ⴑ", "Ⴑ"); ("ⴒ", "Ⴒ"); ("ⴓ", "Ⴓ"); ("ⴔ", "Ⴔ");
  ("ⴕ", "Ⴕ"); ("ⴖ", "Ⴖ"); ("ⴗ", "Ⴗ"); ("ⴘ", "Ⴘ");
  ("ⴙ", "Ⴙ"); ("ⴚ", "Ⴚ"); ("ⴛ", "Ⴛ"); ("ⴜ", "Ⴜ");
  ("ⴝ", "Ⴝ"); ("ⴞ", "Ⴞ"); ("ⴟ", "Ⴟ"); ("ⴠ", "Ⴠ");
  ("ⴡ", "Ⴡ"); ("ⴢ", "Ⴢ"); ("ⴣ", "Ⴣ"); ("ⴤ", "Ⴤ");
  ("ⴥ", "Ⴥ"); ("ⴧ", "Ⴧ"); ("ⴭ", "Ⴭ"); ("ꙁ", "Ꙁ");
  ("ꙃ", "Ꙃ"); ("ꙅ", "Ꙅ"); ("ꙇ", "Ꙇ"); ("ꙉ", "Ꙉ");
  ("ꙋ", "Ꙋ"); ("ꙍ", "Ꙍ"); ("ꙏ", "Ꙏ"); ("ꙑ", "Ꙑ");
  ("ꙓ", "Ꙓ"); ("ꙕ", "Ꙕ"); ("ꙗ", "Ꙗ"); ("ꙙ", "Ꙙ");
  ("ꙛ", "Ꙛ"); ("ꙝ", "Ꙝ"); ("ꙟ", "Ꙟ"); ("ꙡ", "Ꙡ");
  ("ꙣ", "Ꙣ"); ("ꙥ", "Ꙥ"); ("ꙧ", "Ꙧ"); ("ꙩ", "Ꙩ");
  ("ꙫ", "Ꙫ"); ("ꙭ", "Ꙭ"); ("ꚁ", "Ꚁ"); ("ꚃ", "Ꚃ");
  ("ꚅ", "Ꚅ"); ("ꚇ", "Ꚇ"); ("ꚉ", "Ꚉ"); ("ꚋ", "Ꚋ");
  ("ꚍ", "Ꚍ"); ("ꚏ", "Ꚏ"); ("ꚑ", "Ꚑ"); ("ꚓ", "Ꚓ");
  ("ꚕ", "Ꚕ"); ("ꚗ", "Ꚗ"); ("ꚙ", "Ꚙ"); ("ꚛ", "Ꚛ");
  ("ꜣ", "Ꜣ"); ("ꜥ", "Ꜥ"); ("ꜧ", "Ꜧ"); ("ꜩ", "Ꜩ");
  ("ꜫ", "Ꜫ"); ("ꜭ", "Ꜭ"); ("ꜯ", "Ꜯ"); ("ꜳ", "Ꜳ");
  ("ꜵ", "Ꜵ"); ("ꜷ", "Ꜷ"); ("ꜹ", "Ꜹ"); ("ꜻ", "Ꜻ");
  ("ꜽ", "Ꜽ"); ("ꜿ", "Ꜿ"); ("ꝁ", "Ꝁ"); ("ꝃ", "Ꝃ");
  ("ꝅ", "Ꝅ"); ("ꝇ", "Ꝇ"); ("ꝉ", "Ꝉ"); ("ꝋ", "Ꝋ");
  ("ꝍ", "Ꝍ"); ("ꝏ", "Ꝏ"); ("ꝑ", "Ꝑ"); ("ꝓ", "Ꝓ");
  ("ꝕ", "Ꝕ"); ("ꝗ", "Ꝗ"); ("ꝙ", "Ꝙ"); ("ꝛ", "Ꝛ");
  ("ꝝ", "Ꝝ"); ("ꝟ", "Ꝟ"); ("ꝡ", "Ꝡ"); ("ꝣ", "Ꝣ");
  ("ꝥ", "Ꝥ"); ("ꝧ", "Ꝧ"); ("ꝩ", "Ꝩ"); ("ꝫ", "Ꝫ");
  ("ꝭ", "Ꝭ"); ("ꝯ", "Ꝯ"); ("ꝺ", "Ꝺ"); ("ꝼ", "Ꝼ");
  ("ꝿ", "Ꝿ"); ("ꞁ", "Ꞁ"); ("ꞃ", "Ꞃ"); ("ꞅ", "Ꞅ");
  ("ꞇ", "Ꞇ"); ("ꞌ", "Ꞌ"); ("ꞑ", "Ꞑ"); ("ꞓ", "Ꞓ");
  ("ꞔ", "Ꞔ"); ("ꞗ", "Ꞗ"); ("ꞙ", "Ꞙ"); ("ꞛ", "Ꞛ");
  ("ꞝ", "Ꞝ"); ("ꞟ", "Ꞟ"); ("ꞡ", "Ꞡ"); ("ꞣ", "Ꞣ");
  ("ꞥ", "Ꞥ"); ("ꞧ", "Ꞧ"); ("ꞩ", "Ꞩ"); ("ꞵ", "Ꞵ");
  ("ꞷ", "Ꞷ"); ("ꞹ", "Ꞹ"); ("ꞻ", "Ꞻ"); ("ꞽ", "Ꞽ");
  ("ꞿ", "Ꞿ"); ("ꟁ", "Ꟁ"); ("ꟃ", "Ꟃ"); ("ꟈ", "Ꟈ");
  ("ꟊ", "Ꟊ"); ("ꟑ", "Ꟑ"); ("ꟗ", "Ꟗ"); ("ꟙ", "Ꟙ");
  ("ꟶ", "Ꟶ"); ("ꭓ", "Ꭓ"); ("ꭰ", "Ꭰ"); ("ꭱ", "Ꭱ");
  ("ꭲ", "Ꭲ"); ("ꭳ", "Ꭳ"); ("ꭴ", "Ꭴ"); ("ꭵ", "Ꭵ");
  ("ꭶ", "Ꭶ"); ("ꭷ", "Ꭷ"); ("ꭸ", "Ꭸ"); ("ꭹ", "Ꭹ");
  ("ꭺ", "Ꭺ"); ("ꭻ", "Ꭻ"); ("ꭼ", "Ꭼ"); ("ꭽ", "Ꭽ");
  ("ꭾ", "Ꭾ"); ("ꭿ", "Ꭿ"); ("ꮀ", "Ꮀ"); ("ꮁ", "Ꮁ");
  ("ꮂ", "Ꮂ"); ("ꮃ", "Ꮃ"); ("ꮄ", "Ꮄ"); ("ꮅ", "Ꮅ");
  ("ꮆ", "Ꮆ"); ("ꮇ", "Ꮇ"); ("ꮈ", "Ꮈ"); ("ꮉ", "Ꮉ");
  ("ꮊ", "Ꮊ"); ("ꮋ", "Ꮋ"); ("ꮌ", "Ꮌ"); ("ꮍ", "Ꮍ");
  ("ꮎ", "Ꮎ"); ("ꮏ", "Ꮏ"); ("ꮐ", "Ꮐ"); ("ꮑ", "Ꮑ");
  ("ꮒ", "Ꮒ"); ("ꮓ", "Ꮓ"); ("ꮔ", "Ꮔ"); ("ꮕ", "Ꮕ");
  ("ꮖ", "Ꮖ"); ("ꮗ", "Ꮗ"); ("ꮘ", "Ꮘ"); ("ꮙ", "Ꮙ");
  ("ꮚ", "Ꮚ"); ("ꮛ", "Ꮛ"); ("ꮜ", "Ꮜ"); ("ꮝ", "Ꮝ");
  ("ꮞ", "Ꮞ"); ("ꮟ", "Ꮟ"); ("ꮠ", "Ꮠ"); ("ꮡ", "Ꮡ");
  ("ꮢ", "Ꮢ"); ("ꮣ", "Ꮣ"); ("ꮤ", "Ꮤ"); ("ꮥ", "Ꮥ");
  ("ꮦ", "Ꮦ"); ("ꮧ", "Ꮧ"); ("ꮨ", "Ꮨ"); ("ꮩ", "Ꮩ");
  ("ꮪ", "Ꮪ"); ("ꮫ", "Ꮫ"); ("ꮬ", "Ꮬ"); ("ꮭ", "Ꮭ");
  ("ꮮ", "Ꮮ"); ("ꮯ", "Ꮯ"); ("ꮰ", "Ꮰ"); ("ꮱ", "Ꮱ");
  ("ꮲ", "Ꮲ"); ("ꮳ", "Ꮳ"); ("ꮴ", "Ꮴ"); ("ꮵ", "Ꮵ");
  ("ꮶ", "Ꮶ"); ("ꮷ", "Ꮷ"); ("ꮸ", "Ꮸ"); ("ꮹ", "Ꮹ");
  ("ꮺ", "Ꮺ"); ("ꮻ", "Ꮻ"); ("ꮼ", "Ꮼ"); ("ꮽ", "Ꮽ");
  ("ꮾ", "Ꮾ"); ("ꮿ", "Ꮿ"); ("ﬀ", "FF"); ("ﬁ", "FI");
  ("ﬂ", "FL"); ("ﬃ", "FFI"); ("ﬄ", "FFL"); ("ﬅ", "ST");
  ("ﬆ", "ST"); ("ﬓ", "ՄՆ"); ("ﬔ", "ՄԵ"); ("ﬕ", "ՄԻ");
  ("ﬖ", "ՎՆ"); ("ﬗ", "ՄԽ"); ("ａ", "Ａ"); ("ｂ", "Ｂ");
  ("ｃ", "Ｃ"); ("ｄ", "Ｄ"); ("ｅ", "Ｅ"); ("ｆ", "Ｆ");
  ("ｇ", "Ｇ"); ("ｈ", "Ｈ"); ("ｉ", "Ｉ"); ("ｊ", "Ｊ");
  ("ｋ", "Ｋ"); ("ｌ", "Ｌ"); ("ｍ", "Ｍ"); ("ｎ", "Ｎ");
  ("ｏ", "Ｏ"); ("ｐ", "Ｐ"); ("ｑ", "Ｑ"); ("ｒ", "Ｒ");
  ("ｓ", "Ｓ"); ("ｔ", "Ｔ"); ("ｕ", "Ｕ"); ("ｖ", "Ｖ");
  ("ｗ", "Ｗ"); ("ｘ", "Ｘ"); ("ｙ", "Ｙ"); ("ｚ", "Ｚ");
  ("𐐨", "𐐀"); ("𐐩", "𐐁"); ("𐐪", "𐐂"); ("𐐫", "𐐃");
  ("𐐬", "𐐄"); ("𐐭", "𐐅"); ("𐐮", "𐐆"); ("𐐯", "𐐇");
  ("𐐰", "𐐈"); ("𐐱", "𐐉"); ("𐐲", "𐐊"); ("𐐳", "𐐋");
  ("𐐴", "𐐌"); ("𐐵", "𐐍"); ("𐐶", "𐐎"); ("𐐷", "𐐏");
  ("𐐸", "𐐐"); ("𐐹", "𐐑"); ("𐐺", "𐐒"); ("𐐻", "𐐓");
  ("𐐼", "𐐔"); ("𐐽", "𐐕"); ("𐐾", "𐐖"); ("𐐿", "𐐗");
  ("𐑀", "𐐘"); ("𐑁", "𐐙"); ("𐑂", "𐐚"); ("𐑃", "𐐛");
  ("𐑄", "𐐜"); ("𐑅", "𐐝"); ("𐑆", "𐐞"); ("𐑇", "𐐟");
  ("𐑈", "𐐠"); ("𐑉", "𐐡"); ("𐑊", "𐐢"); ("𐑋", "𐐣");
  ("𐑌", "𐐤"); ("𐑍", "𐐥"); ("𐑎", "𐐦"); ("𐑏", "𐐧");
  ("𐓘", "𐒰"); ("𐓙", "𐒱"); ("𐓚", "𐒲"); ("𐓛", "𐒳");
  ("𐓜", "𐒴"); ("𐓝", "𐒵"); ("𐓞", "𐒶"); ("𐓟", "𐒷");
  ("𐓠", "𐒸"); ("𐓡", "𐒹"); ("𐓢", "𐒺"); ("𐓣", "𐒻");
  ("𐓤", "𐒼"); ("𐓥", "𐒽"); ("𐓦", "𐒾"); ("𐓧", "𐒿");
  ("𐓨", "𐓀"); ("𐓩", "𐓁"); ("𐓪", "𐓂"); ("𐓫", "𐓃");
  ("𐓬", "𐓄"); ("𐓭", "𐓅"); ("𐓮", "𐓆"); ("𐓯", "𐓇");
  ("𐓰", "𐓈"); ("𐓱", "𐓉"); ("𐓲", "𐓊"); ("𐓳", "𐓋");
  ("𐓴", "𐓌"); ("𐓵", "𐓍"); ("𐓶", "𐓎"); ("𐓷", "𐓏");
  ("𐓸", "𐓐"); ("𐓹", "𐓑"); ("𐓺", "𐓒"); ("𐓻", "𐓓");
  ("𐖗", "𐕰"); ("𐖘", "𐕱"); ("𐖙", "𐕲"); ("𐖚", "𐕳");
  ("𐖛", "𐕴"); ("𐖜", "𐕵"); ("𐖝", "𐕶"); ("𐖞", "𐕷");
  ("𐖟", "𐕸"); ("𐖠", "𐕹"); ("𐖡", "𐕺"); ("𐖣", "𐕼");
  ("𐖤", "𐕽"); ("𐖥", "𐕾"); ("𐖦", "𐕿"); ("𐖧", "𐖀");
  ("𐖨", "𐖁"); ("𐖩", "𐖂"); ("𐖪", "𐖃"); ("𐖫", "𐖄");
  ("𐖬", "𐖅"); ("𐖭", "𐖆"); ("𐖮", "𐖇"); ("𐖯", "𐖈");
  ("𐖰", "𐖉"); ("𐖱", "𐖊"); ("𐖳", "𐖌"); ("𐖴", "𐖍");
  ("𐖵", "𐖎"); ("𐖶", "𐖏"); ("𐖷", "𐖐"); ("𐖸", "𐖑");
  ("𐖹", "𐖒"); ("𐖻", "𐖔"); ("𐖼", "𐖕"); ("𐳀", "𐲀");
  ("𐳁", "𐲁"); ("𐳂", "𐲂"); ("𐳃", "𐲃"); ("𐳄", "𐲄");
  ("𐳅", "𐲅"); ("𐳆", "𐲆"); ("𐳇", "𐲇"); ("𐳈", "𐲈");
  ("𐳉", "𐲉"); ("𐳊", "𐲊"); ("𐳋", "𐲋"); ("𐳌", "𐲌");
  ("𐳍", "𐲍"); ("𐳎", "𐲎"); ("𐳏", "𐲏"); ("𐳐", "𐲐");
  ("𐳑", "𐲑"); ("𐳒", "𐲒"); ("𐳓", "𐲓"); ("𐳔", "𐲔");
  ("𐳕", "𐲕"); ("𐳖", "𐲖"); ("𐳗", "𐲗"); ("𐳘", "𐲘");
  ("𐳙", "𐲙"); ("𐳚", "𐲚"); ("𐳛", "𐲛"); ("𐳜", "𐲜");
  ("𐳝", "𐲝"); ("𐳞", "𐲞"); ("𐳟", "𐲟"); ("𐳠", "𐲠");
  ("𐳡", "𐲡"); ("𐳢", "𐲢"); ("𐳣", "𐲣"); ("𐳤", "𐲤");
  ("𐳥", "𐲥"); ("𐳦", "𐲦"); ("𐳧", "𐲧"); ("𐳨", "𐲨");
  ("𐳩", "𐲩"); ("𐳪", "𐲪"); ("𐳫", "𐲫"); ("𐳬", "𐲬");
  ("𐳭", "𐲭"); ("𐳮", "𐲮"); ("𐳯", "𐲯"); ("𐳰", "𐲰");
  ("𐳱", "𐲱"); ("𐳲", "𐲲"); ("𑣀", "𑢠"); ("𑣁", "𑢡");
  ("𑣂", "𑢢"); ("𑣃", "𑢣"); ("𑣄", "𑢤"); ("𑣅", "𑢥");
  ("𑣆", "𑢦"); ("𑣇", "𑢧"); ("𑣈", "𑢨"); ("𑣉", "𑢩");
  ("𑣊", "𑢪"); ("𑣋", "𑢫"); ("𑣌", "𑢬"); ("𑣍", "𑢭");
  ("𑣎", "𑢮"); ("𑣏", "𑢯"); ("𑣐", "𑢰"); ("𑣑", "𑢱");
  ("𑣒", "𑢲"); ("𑣓", "𑢳"); ("𑣔", "𑢴"); ("𑣕", "𑢵");
  ("𑣖", "𑢶"); ("𑣗", "𑢷"); ("𑣘", "𑢸"); ("𑣙", "𑢹");
  ("𑣚", "𑢺"); ("𑣛", "𑢻"); ("𑣜", "𑢼"); ("𑣝", "𑢽");
  ("𑣞", "𑢾"); ("𑣟", "𑢿"); ("𖹠", "𖹀"); ("𖹡", "𖹁");
  ("𖹢", "𖹂"); ("𖹣", "𖹃"); ("𖹤", "𖹄"); ("𖹥", "𖹅");
  ("𖹦", "𖹆"); ("𖹧", "𖹇"); ("𖹨", "𖹈"); ("𖹩", "𖹉");
  ("𖹪", "𖹊"); ("𖹫", "𖹋"); ("𖹬", "𖹌"); ("𖹭", "𖹍");
  ("𖹮", "𖹎"); ("𖹯", "𖹏"); ("𖹰", "𖹐"); ("𖹱", "𖹑");
  ("𖹲", "𖹒"); ("𖹳", "𖹓"); ("𖹴", "𖹔"); ("𖹵", "𖹕");
  ("𖹶", "𖹖"); ("𖹷", "𖹗"); ("𖹸", "𖹘"); ("𖹹", "𖹙");
  ("𖹺", "𖹚"); ("𖹻", "𖹛"); ("𖹼", "𖹜"); ("𖹽", "𖹝");
  ("𖹾", "𖹞"); ("𖹿", "𖹟"); ("𞤢", "𞤀"); ("𞤣", "𞤁");
  ("𞤤", "𞤂"); ("𞤥", "𞤃"); ("𞤦", "𞤄"); ("𞤧", "𞤅");
  ("𞤨", "𞤆"); ("𞤩", "𞤇"); ("𞤪", "𞤈"); ("𞤫", "𞤉");
  ("𞤬", "𞤊"); ("𞤭", "𞤋"); ("𞤮", "𞤌"); ("𞤯", "𞤍");
  ("𞤰", "𞤎"); ("𞤱", "𞤏"); ("𞤲", "𞤐"); ("𞤳", "𞤑");
  ("𞤴", "𞤒"); ("𞤵", "𞤓"); ("𞤶", "𞤔"); ("𞤷", "𞤕");
  ("𞤸", "𞤖"); ("𞤹", "𞤗"); ("𞤺", "𞤘"); ("𞤻", "𞤙");
  ("𞤼", "𞤚"); ("𞤽", "𞤛"); ("𞤾", "𞤜"); ("𞤿", "𞤝");
  ("𞥀", "𞤞"); ("𞥁", "𞤟"); ("𞥂", "𞤠"); ("𞥃", "𞤡")
  ].

Definition upper_ascii (a : ascii) : ascii :=
  let n := nat_of_ascii a in
  if (97 <=? n)%nat && (n <=? 122)%nat then ascii_of_nat (n - 32) else a.

(** [c.upper()] for one character. *)
Definition upper_char (c : string) : string :=
  match c with
  | String a EmptyString => s1 (upper_ascii a)
  | _ =>
      match find (fun kv => String.eqb (fst kv) c) case_table with
      | Some kv => snd kv
      | None => c
      end
  end.

(** [s.upper()] *)
Definition upper (s : string) : string := unchars (map upper_char (chars s)).

(** The first [p] characters, as the precision of a format spec takes
    them. *)
Definition truncate (p : nat) (s : string) : string :=
  unchars (firstn p (chars s)).

(** Python truthiness of a [str]: only the empty string is false. *)
Definition nonempty (s : string) : bool :=
  match s with
  | EmptyString => false
  | String _ _ => true
  end.

(** Python truthiness of an [Optional[str]]. *)
Definition truthy (o : option string) : bool :=
  match o with
  | None => false
  | Some s => nonempty s
  end.

(** [a <= b] and [a >= b] under the BINARY collation. *)
Definition le (a b : string) : bool := String.leb a b.
Definition ge (a b : string) : bool := String.leb b a.

End Text.

(** ** Data model *)

(** The standard tuple [(id, adulto, fecha, turno, emocion, estado,
    comentario)] that both queries return; also a row of [registros]. *)
Record Row : Type := mkRow {
  id : Z;
  adulto : string;
  fecha : string;
  turno : string;
  emocion : string;
  estado : string;
  comentario : option string
}.

(** A row of [emociones (id, nombre)]. *)
Record Emocion : Type := mkEmocion {
  e_id : Z;
  e_nombre : string
}.

(** A row of [registro_emocional]. *)
Record RegistroEmocional : Type := mkRegistroEmocional {
  r_id : Z;
  r_adulto_id : string;
  r_fecha : string;
  r_turno : string;
  r_emocion_id : Z;
  r_estado : string;
  r_comentario : option string
}.

(** The store: each of the three tables the program knows is absent
    ([None]) or present with its rows, in rowid order. *)
Record Store : Type := mkStore {
  registro_emocional : option (list RegistroEmocional);
  emociones : option (list Emocion);
  registros : option (list Row)
}.

(** An open connection.  [Unusable msg] is a handle on a file SQLite cannot
    read as a database: [sqlite3.connect] succeeds and every statement
    raises. *)
Inductive Connection : Type :=
| Conn (st : Store)
| Unusable (msg : string).

Inductive Schema : Type := dos_tablas | una_tabla.

Definition schema_eqb (a b : Schema) : bool :=
  match a, b with
  | dos_tablas, dos_tablas | una_tabla, una_tabla => true
  | _, _ => false
  end.

Definition is_some {A : Type} (o : option A) : bool :=
  match o with Some _ => true | None => false end.

(** ** Utilidades BD *)

(** The catalog lookup [SELECT 1 FROM sqlite_master WHERE type='table' AND
    name=?]. *)
Definition has_table (conn : Connection) (name : string) : Result bool :=
  match conn with
  | Unusable msg => Raise (SqliteError msg)
  | Conn st =>
      Ok (if name =? "registro_emocional" then is_some (registro_emocional st)
          else if name =? "emociones" then is_some (emociones st)
          else if name =? "registros" then is_some (registros st)
          else false)
  end.

Definition no_schema_msg : string :=
  "No se reconocen tablas. Esperaba (registro_emocional+emociones) o (registros).".

Definition detect_schema (conn : Connection) : Result Schema :=
  re <- has_table conn "registro_emocional" ;;
  both <- (if re then has_table conn "emociones" else Ok false) ;;
  if both then Ok dos_tablas
  else
    una <- has_table conn "registros" ;;
    if una then Ok una_tabla
    else Raise (RuntimeError no_schema_msg).

(** ** A fragment of SQL: the two SELECT statements of the program *)

Module Sql.

Inductive Op : Type := OpEq | OpGe | OpLe.

(** One conjunct [col op ?] of a WHERE clause. *)
Record Clause : Type := mkClause {
  c_col : string;
  c_op : Op
}.

(** [ORDER BY fecha DESC, turno DESC, id DESC] compares these triples. *)
Definition Key : Type := (string * string * Z)%type.

Definition key_compare (a b : Key) : comparison :=
  let '(fa, ta, ia) := a in
  let '(fb, tb, ib) := b in
  match String.compare fa fb with
  | Eq =>
      match String.compare ta tb with
      | Eq => Z.compare ia ib
      | c => c
      end
  | c => c
  end.

(** [a] sorts at or after [b] in descending order: key a <= key b. *)
Definition key_leb (a b : Key) : bool :=
  match key_compare a b with
  | Gt => false
  | _ => true
  end.

Definition eval_op (o : Op) (v p : string) : bool :=
  match o with
  | OpEq => String.eqb v p
  | OpGe => Text.ge v p
  | OpLe => Text.le v p
  end.

Section Select.

(** The rows a FROM clause produces, how its column names resolve, its
    sort key and its select list. *)
Variable A : Type.
Variable column : string -> option (A -> string).
Variable key : A -> Key.
Variable project : A -> Row.

(** Binds the positional parameters to the [?] of the clauses, in
    order, and yields the row predicate of the conjunction. *)
Fixpoint bind_where (clauses : list Clause) (params : list string)
  : Result (A -> bool) :=
  match clauses, params with
  | [], [] => Ok (fun _ => true)
  | c :: cs, p :: ps =>
      match column (c_col c) with
      | None => Raise (SqliteError ("no such column: " ++ c_col c))
      | Some get =>
          rest <- bind_where cs ps ;;
          Ok (fun a => eval_op (c_op c) (get a) p && rest a)
      end
  | _, _ => Raise (SqliteError "Incorrect number of bindings supplied.")
  end.

Fixpoint insert_desc (x : A) (l : list A) : list A :=
  match l with
  | [] => [x]
  | y :: l' =>
      if key_leb (key y) (key x) then x :: l else y :: insert_desc x l'
  end.

(** Descending sort by key.  Rows with equal keys keep table order
    here; SQLite promises no order among them. *)
Definition order_by_desc (l : list A) : list A :=
  fold_right insert_desc [] l.

Definition limit (n : option nat) (l : list Row) : list Row :=
  match n with
  | None => l
  | Some k => firstn k l
  end.

(** SELECT ... FROM rows WHERE clauses ORDER BY key DESC [LIMIT n]. *)
Definition select (rows : list A) (clauses : list Clause)
    (params : list string) (lim : option nat) : Result (list Row) :=
  keep <- bind_where clauses params ;;
  Ok (limit lim (map project (order_by_desc (filter keep rows)))).

End Select.

Arguments bind_where {A} column clauses params.
Arguments insert_desc {A} key x l.
Arguments order_by_desc {A} key l.
Arguments select {A} column key project rows clauses params lim.

(** [registro_emocional r JOIN emociones e ON e.id = r.emocion_id]. *)
Definition join (rs : list RegistroEmocional) (es : list Emocion)
  : list (RegistroEmocional * Emocion) :=
  flat_map
    (fun r =>
       map (fun e => (r, e))
           (filter (fun e => Z.eqb (e_id e) (r_emocion_id r)) es))
    rs.

(** Text columns of the join, bare where only one table has the name and
    qualified by the aliases [r] and [e]. *)
Definition column_dos (name : string)
  : option (RegistroEmocional * Emocion -> string) :=
  if (name =? "adulto_id") || (name =? "r.adulto_id")
  then Some (fun re => r_adulto_id (fst re))
  else if (name =? "fecha") || (name =? "r.fecha")
  then Some (fun re => r_fecha (fst re))
  else if (name =? "turno") || (name =? "r.turno")
  then Some (fun re => r_turno (fst re))
  else if (name =? "estado") || (name =? "r.estado")
  then Some (fun re => r_estado (fst re))
  else if (name =? "nombre") || (name =? "e.nombre")
  then Some (fun re => e_nombre (snd re))
  else None.

Definition key_dos (re : RegistroEmocional * Emocion) : Key :=
  (r_fecha (fst re), r_turno (fst re), r_id (fst re)).

(** [SELECT r.id, r.adulto_id, r.fecha, r.turno, e.nombre AS emocion,
    r.estado, r.comentario]. *)
Definition project_dos (re : RegistroEmocional * Emocion) : Row :=
  let (r, e) := re in
  mkRow (r_id r) (r_adulto_id r) (r_fecha r) (r_turno r) (e_nombre e)
        (r_estado r) (r_comentario r).

(** Text columns of [registros]. *)
Definition column_una (name : string) : option (Row -> string) :=
  if name =? "adulto" then Some adulto
  else if name =? "fecha" then Some fecha
  else if name =? "turno" then Some turno
  else if name =? "emocion" then Some emocion
  else if name =? "estado" then Some estado
  else None.

Definition key_una (r : Row) : Key := (fecha r, turno r, id r).

(** [SELECT id, adulto, fecha, turno, emocion, estado, comentario]. *)
Definition project_una (r : Row) : Row := r.

Definition no_such_table (name : string) : Exn :=
  SqliteError ("no such table: " ++ name).

(** [conn.execute(sql, params)] followed by reading every row, for the
    statement that [from] selects: the join for [dos_tablas], the single
    table for [una_tabla]. *)
Definition execute (conn : Connection) (from : Schema)
    (clauses : list Clause) (params : list string) (lim : option nat)
  : Result (list Row) :=
  match conn with
  | Unusable msg => Raise (SqliteError msg)
  | Conn st =>
      match from with
      | dos_tablas =>
          match registro_emocional st, emociones st with
          | Some rs, Some es =>
              select column_dos key_dos project_dos (join rs es)
                     clauses params lim
          | None, _ => Raise (no_such_table "registro_emocional")
          | _, None => Raise (no_such_table "emociones")
          end
      | una_tabla =>
          match registros st with
          | Some rs =>
              select column_una key_una project_una rs clauses params lim
          | None => Raise (no_such_table "registros")
          end
      end
  end.

(** [cursor.fetchone()] *)
Definition fetchone (rows : list Row) : option Row := hd_error rows.

End Sql.

(** ** Consultas *)

Definition fetch_ultimo (conn : Connection) (adulto : string)
  : Result (option Row) :=
  schema <- detect_schema conn ;;
  let clauses :=
    match schema with
    | dos_tablas => [Sql.mkClause "r.adulto_id" Sql.OpEq]
    | una_tabla => [Sql.mkClause "adulto" Sql.OpEq]
    end in
  rows <- Sql.execute conn schema clauses [Text.strip adulto] (Some 1%nat) ;;
  Ok (Sql.fetchone rows).

(** One [if x: clauses.append(c); params.append(v)] step. *)
Definition add_filter (cond : bool) (c : Sql.Clause) (v : string)
    (acc : list Sql.Clause * list string) : list Sql.Clause * list string :=
  if cond then (fst acc ++ [c], snd acc ++ [v]) else acc.

(** The value of an [Optional[str]] argument where the code uses it, which
    is only under [if x:]. *)
Definition arg (o : option string) : string :=
  match o with Some s => s | None => EmptyString end.

Definition fetch_historial (conn : Connection) (adulto : string)
    (desde hasta turno : option string) : Result (list Row) :=
  schema <- detect_schema conn ;;
  let dos := schema_eqb schema dos_tablas in
  let acc0 :=
    ([Sql.mkClause (if dos then "adulto_id" else "adulto") Sql.OpEq],
     [Text.strip adulto]) in
  let acc1 :=
    add_filter (Text.truthy desde)
      (Sql.mkClause (if dos then "r.fecha" else "fecha") Sql.OpGe)
      (arg desde) acc0 in
  let acc2 :=
    add_filter (Text.truthy hasta)
      (Sql.mkClause (if dos then "r.fecha" else "fecha") Sql.OpLe)
      (arg hasta) acc1 in
  let acc3 :=
    add_filter (Text.truthy turno)
      (Sql.mkClause (if dos then "r.turno" else "turno") Sql.OpEq)
      (Text.upper (Text.strip (arg turno))) acc2 in
  Sql.execute conn schema (fst acc3) (snd acc3) None.

(** ** The world the program runs in *)

Record World : Type := mkWorld {
  stdin : list string;                      (* lines still to be read *)
  stdout : list string;                     (* chunks written, oldest first *)
  files : list (string * string);           (* files written: path, content *)
  databases : string -> option Connection;  (* what [sqlite3.connect] opens *)
  open_error : string -> option string;     (* why [open(.., "w")] fails *)
  resolve : string -> string                (* [Path.resolve] *)
}.

Definition set_stdin (w : World) (l : list string) : World :=
  mkWorld l (stdout w) (files w) (databases w) (open_error w) (resolve w).

Definition set_stdout (w : World) (o : list string) : World :=
  mkWorld (stdin w) o (files w) (databases w) (open_error w) (resolve w).

Definition set_files (w : World) (f : list (string * string)) : World :=
  mkWorld (stdin w) (stdout w) f (databases w) (open_error w) (resolve w).

Definition IO (A : Type) : Type := World -> Result A * World.

Definition ret {A : Type} (a : A) : IO A := fun w => (Ok a, w).

Definition bindIO {A B : Type} (m : IO A) (k : A -> IO B) : IO B :=
  fun w =>
    match m w with
    | (Ok a, w') => k a w'
    | (Raise e, w') => (Raise e, w')
    end.

Notation "x <~ m ;; k" := (bindIO m (fun x => k))
  (at level 61, m at next level, right associativity).

Definition lift {A : Type} (r : Result A) : IO A := fun w => (r, w).

(** [try: body except Exception as e: handler(e)] *)
Definition try_except {A : Type} (body : IO A) (handler : Exn -> IO A) : IO A :=
  fun w =>
    match body w with
    | (Ok a, w') => (Ok a, w')
    | (Raise e, w') => handler e w'
    end.

Definition LF : string := String "010"%char EmptyString.
Definition CRLF : string := String "013"%char LF.

(** [print(s)] *)
Definition print_chunk (s : string) : string := s ++ LF.

Definition write_all (chunks : list string) : IO unit :=
  fun w => (Ok tt, set_stdout w (stdout w ++ chunks)).

Definition print (s : string) : IO unit := write_all [print_chunk s].

Definition eof_msg : string := "EOF when reading a line".

(** [input(prompt)] *)
Definition input (prompt : string) : IO string :=
  fun w =>
    let w' := set_stdout w (stdout w ++ [prompt]) in
    match stdin w with
    | [] => (Raise (EOFError eof_msg), w')
    | l :: rest => (Ok l, set_stdin w' rest)
    end.

(** ** Presentación *)

(** [str(n)] for an [int]. *)
Definition str_int (n : Z) : string :=
  DecimalString.NilZero.string_of_int (Z.to_int n).

Fixpoint spaces (n : nat) : string :=
  match n with
  | O => EmptyString
  | S k => String " "%char (spaces k)
  end.

(** ["-" * n] *)
Fixpoint dashes (n : nat) : string :=
  match n with
  | O => EmptyString
  | S k => String "-"%char (dashes k)
  end.

(** Format specs [<w], [>w] and the precision [.p]; widths count
    characters. *)
Definition ljust (w : nat) (s : string) : string :=
  s ++ spaces (w - Text.len s).

Definition rjust (w : nat) (s : string) : string :=
  spaces (w - Text.len s) ++ s.

Definition truncate (p : nat) (s : string) : string := Text.truncate p s.

Definition no_hay_adulto : string := "No hay registros para ese adulto.".
Definition no_hay : string := "No hay registros.".

(** What [print_uno] writes. *)
Definition print_uno_out (row : option Row) : list string :=
  match row with
  | None => [print_chunk no_hay_adulto]
  | Some r =>
      [ print_chunk (LF ++ "Último registro");
        print_chunk (dashes 60);
        print_chunk ("ID:        " ++ str_int (id r));
        print_chunk ("Adulto:    " ++ adulto r);
        print_chunk ("Fecha:     " ++ fecha r ++ "   Turno: " ++ turno r);
        print_chunk ("Emoción:   " ++ emocion r ++ "   Estado: " ++ estado r);
        print_chunk ("Comentario:" ++
                     (if Text.truthy (comentario r)
                      then " " ++ arg (comentario r) else EmptyString)) ]
  end.

Definition print_uno (row : option Row) : IO unit :=
  write_all (print_uno_out row).

(** [f"{cmt}"]: [str] of an optional text. *)
Definition str_opt (o : option string) : string :=
  match o with Some s => s | None => "None" end.

(** The heading of the table. *)
Definition tabla_header : string :=
  rjust 3 "ID" ++ " " ++ ljust 10 "Adulto" ++ " " ++ ljust 10 "Fecha" ++ " "
  ++ ljust 3 "Trn" ++ " " ++ ljust 14 "Emoción" ++ " " ++ ljust 3 "Est"
  ++ "  Comentario".

Definition tabla_line (r : Row) : string :=
  rjust 3 (str_int (id r)) ++ " " ++ ljust 10 (truncate 10 (adulto r)) ++ " "
  ++ ljust 10 (fecha r) ++ " " ++ ljust 3 (turno r) ++ " "
  ++ ljust 14 (truncate 14 (emocion r)) ++ " " ++ ljust 3 (estado r)
  ++ "  " ++ str_opt (comentario r).

(** What [print_tabla] writes. *)
Definition print_tabla_out (rows : list Row) : list string :=
  match rows with
  | [] => [print_chunk no_hay]
  | _ :: _ =>
      print_chunk tabla_header :: print_chunk (dashes 90)
        :: map (fun r => print_chunk (tabla_line r)) rows
  end.

Definition print_tabla (rows : list Row) : IO unit :=
  write_all (print_tabla_out rows).

(** *** The CSV writer, in the default (excel) dialect *)

Module Csv.

Definition quotechar : ascii := "034"%char.
Definition delimiter : ascii := ","%char.
Definition CR : ascii := "013"%char.
Definition NL : ascii := "010"%char.

(** Characters that force a field to be quoted. *)
Definition special (c : ascii) : bool :=
  Ascii.eqb c delimiter || Ascii.eqb c quotechar
  || Ascii.eqb c CR || Ascii.eqb c NL.

Fixpoint has_special (s : string) : bool :=
  match s with
  | EmptyString => false
  | String c s' => special c || has_special s'
  end.

(** Copies the field, doubling every quote character. *)
Fixpoint escape (s : string) : string :=
  match s with
  | EmptyString => EmptyString
  | String c s' =>
      if Ascii.eqb c quotechar
      then String quotechar (String quotechar (escape s'))
      else String c (escape s')
  end.

(** One field under QUOTE_MINIMAL; [lone] tells that the record has this
    single field, in which case an empty field is quoted too. *)
Definition field (lone : bool) (s : string) : string :=
  if has_special s || (lone && negb (Text.nonempty s))
  then String quotechar (escape s ++ String quotechar EmptyString)
  else s.

Fixpoint join (fields : list string) : string :=
  match fields with
  | [] => EmptyString
  | [f] => f
  | f :: rest => f ++ String delimiter (join rest)
  end.

(** The text [writer.writerow(fields)] appends to the file. *)
Definition writerow (fields : list string) : string :=
  join (map (field (Nat.eqb (List.length fields) 1)) fields) ++ CRLF.

(** *** Reading CSV back

    The reader of RFC 4180 for this dialect: fields separated by the
    delimiter, records ended by CR LF, a field that starts with the
    quote character runs to its closing quote and holds a quote where
    the text has two.  It is the yardstick for "standard quoting": what
    the writer wrote must read back as the records written. *)

Inductive State : Type :=
| StartRecord | StartField | InField | InQuoted | QuoteInQuoted | AfterCR.

Definition snoc (s : string) (c : ascii) : string :=
  s ++ String c EmptyString.

(** [read_from st fld row s]: [fld] is the field being read, [row] the
    fields of the current record already closed. *)
Fixpoint read_from (st : State) (fld : string) (row : list string)
    (s : string) : option (list (list string)) :=
  match s with
  | EmptyString =>
      match st with
      | StartRecord => Some []
      | _ => None
      end
  | String c s' =>
      match st with
      | StartRecord =>
          if Ascii.eqb c CR then read_from AfterCR EmptyString [] s'
          else if Ascii.eqb c quotechar
          then read_from InQuoted EmptyString [] s'
          else if Ascii.eqb c delimiter
          then read_from StartField EmptyString [EmptyString] s'
          else if Ascii.eqb c NL then None
          else read_from InField (String c EmptyString) [] s'
      | StartField =>
          if Ascii.eqb c CR
          then read_from AfterCR EmptyString (row ++ [EmptyString]) s'
          else if Ascii.eqb c quotechar
          then read_from InQuoted EmptyString row s'
          else if Ascii.eqb c delimiter
          then read_from StartField EmptyString (row ++ [EmptyString]) s'
          else if Ascii.eqb c NL then None
          else read_from InField (String c EmptyString) row s'
      | InField =>
          if Ascii.eqb c CR
          then read_from AfterCR EmptyString (row ++ [fld]) s'
          else if Ascii.eqb c quotechar then None
          else if Ascii.eqb c delimiter
          then read_from StartField EmptyString (row ++ [fld]) s'
          else if Ascii.eqb c NL then None
          else read_from InField (snoc fld c) row s'
      | InQuoted =>
          if Ascii.eqb c quotechar then read_from QuoteInQuoted fld row s'
          else read_from InQuoted (snoc fld c) row s'
      | QuoteInQuoted =>
          if Ascii.eqb c quotechar
          then read_from InQuoted (snoc fld quotechar) row s'
          else if Ascii.eqb c delimiter
          then read_from StartField EmptyString (row ++ [fld]) s'
          else if Ascii.eqb c CR
          then read_from AfterCR EmptyString (row ++ [fld]) s'
          else None
      | AfterCR =>
          if Ascii.eqb c NL
          then option_map (cons row)
                 (read_from StartRecord EmptyString [] s')
          else None
      end
  end.

(** The records of a CSV text, or [None] when it is not well formed. *)
Definition read (s : string) : option (list (list string)) :=
  read_from StartRecord EmptyString [] s.

End Csv.

Definition csv_header : list string :=
  ["id"; "adulto"; "fecha"; "turno"; "emocion"; "estado"; "comentario"].

(** The fields of a standard tuple as the writer sees them: [str] of the
    integer, the texts, and the empty string for [None]. *)
Definition csv_fields (r : Row) : list string :=
  [str_int (id r); adulto r; fecha r; turno r; emocion r; estado r;
   arg (comentario r)].

(** The content of the file after the header and the loop over [rows]. *)
Definition csv_content (rows : list Row) : string :=
  fold_left (fun buf r => (buf ++ Csv.writerow (csv_fields r))%string) rows
            (Csv.writerow csv_header).

Definition upsert (path content : string) (fs : list (string * string))
  : list (string * string) :=
  (path, content) :: filter (fun pc => negb (String.eqb (fst pc) path)) fs.

Definition export_csv (rows : list Row) (out : string) : IO string :=
  fun w =>
    match open_error w out with
    | Some msg => (Raise (OSError msg), w)
    | None => (Ok out, set_files w (upsert out (csv_content rows) (files w)))
    end.

(** ** CLI *)

(** The namespace [build_parser().parse_args(argv)] returns. *)
Record Args : Type := mkArgs {
  a_db : string;
  a_cmd : option string;
  a_adulto : string;
  a_desde : option string;
  a_hasta : option string;
  a_turno : option string;
  a_csv : option string
}.

Definition connect_msg : string := "unable to open database file".

(** [sqlite3.connect(str(db_path))].  [databases w p] tells what opening
    [p] gives: nothing where SQLite can neither open nor create a file,
    and a connection otherwise, on a store without tables where no file
    existed.  The database file SQLite creates in that last case is not
    recorded: [files w] holds the text files the program writes. *)
Definition connect (db_path : string) : IO Connection :=
  fun w =>
    match databases w db_path with
    | Some conn => (Ok conn, w)
    | None => (Raise (SqliteError connect_msg), w)
    end.

(** [s or None] *)
Definition or_none (s : string) : option string :=
  if Text.nonempty s then Some s else None.

Definition menu_banner : list string :=
  [ print_chunk (LF ++ "=== Consultar estado del familiar ===");
    print_chunk "1) Último registro de un adulto";
    print_chunk "2) Historial por adulto";
    print_chunk "0) Salir";
    "Opción: " ].

Definition p_adulto : string := "Adulto: ".
Definition p_desde : string := "Desde (YYYY-MM-DD, vacío = sin filtro): ".
Definition p_hasta : string := "Hasta (YYYY-MM-DD, vacío = sin filtro): ".
Definition p_turno : string := "Turno (M/T, vacío = ambos): ".

Definition eof {A : Type} (out : list string)
  : Result A * list string * list string :=
  (Raise (EOFError eof_msg), [], out).

(** The loop of [run_menu], by recursion on the lines left on standard
    input: every turn reads at least the option.  Returns the outcome, the
    lines not read and everything written. *)
Fixpoint run_menu_loop (conn : Connection) (lines : list string)
    (out : list string) : Result unit * list string * list string :=
  let out := out ++ menu_banner in
  match lines with
  | [] => eof out
  | l_op :: rest =>
      let op := Text.strip l_op in
      if op =? "0" then (Ok tt, rest, out)
      else if op =? "1" then
        let out := out ++ [p_adulto] in
        match rest with
        | [] => eof out
        | l_adulto :: rest =>
            match fetch_ultimo conn (Text.strip l_adulto) with
            | Raise e => (Raise e, rest, out)
            | Ok row => run_menu_loop conn rest (out ++ print_uno_out row)
            end
        end
      else if op =? "2" then
        let out := out ++ [p_adulto] in
        match rest with
        | [] => eof out
        | l_adulto :: rest =>
            let out := out ++ [p_desde] in
            match rest with
            | [] => eof out
            | l_desde :: rest =>
                let out := out ++ [p_hasta] in
                match rest with
                | [] => eof out
                | l_hasta :: rest =>
                    let out := out ++ [p_turno] in
                    match rest with
                    | [] => eof out
                    | l_turno :: rest =>
                        match
                          fetch_historial conn (Text.strip l_adulto)
                            (or_none (Text.strip l_desde))
                            (or_none (Text.strip l_hasta))
                            (or_none (Text.upper (Text.strip l_turno)))
                        with
                        | Raise e => (Raise e, rest, out)
                        | Ok rows =>
                            run_menu_loop conn rest
                              (out ++ print_tabla_out rows)
                        end
                    end
                end
            end
        end
      else run_menu_loop conn rest (out ++ [print_chunk "Opción inválida."])
  end.

Definition run_menu (conn : Connection) : IO unit :=
  fun w =>
    let '(r, rest, out) := run_menu_loop conn (stdin w) (stdout w) in
    (r, set_stdin (set_stdout w out) rest).

Definition csv_ok : string := "✅ CSV exportado: ".
Definition warning : string := "⚠️ Error: ".

(** The body of the [try] block of [main]. *)
Definition main_body (conn : Connection) (args : Args) : IO Z :=
  match a_cmd args with
  | None =>
      l <~ input p_adulto ;;
      row <~ lift (fetch_ultimo conn (Text.strip l)) ;;
      _ <~ print_uno row ;;
      ret 0%Z
  | Some cmd =>
      if cmd =? "menu" then
        _ <~ run_menu conn ;; ret 0%Z
      else if cmd =? "actual" then
        row <~ lift (fetch_ultimo conn (a_adulto args)) ;;
        _ <~ print_uno row ;;
        ret 0%Z
      else if cmd =? "historial" then
        rows <~ lift (fetch_historial conn (a_adulto args) (a_desde args)
                        (a_hasta args) (a_turno args)) ;;
        match a_csv args with
        | Some path =>
            out <~ export_csv rows path ;;
            _ <~ (fun w => print (csv_ok ++ resolve w out) w) ;;
            ret 0%Z
        | None =>
            _ <~ print_tabla rows ;;
            ret 0%Z
        end
      else ret 0%Z
  end.

Definition main (args : Args) : IO Z :=
  conn <~ connect (a_db args) ;;
  try_except (main_body conn args)
    (fun e => _ <~ print (warning ++ exn_message e) ;; ret 1%Z).

(** The script: [raise SystemExit(main())].  An exception that leaves
    [main] ends the process with status 1 and a traceback on standard
    error; standard output is what had been written. *)
Definition exit_status (args : Args) (w : World) : Z * World :=
  match main args w with
  | (Ok code, w') => (code, w')
  | (Raise _, w') => (1%Z, w')
  end.

(** ** Vocabulary of the specification *)

(** The two physical forms of the data model. *)
Definition two_table_form (st : Store) : bool :=
  is_some (registro_emocional st) && is_some (emociones st).

Definition one_table_form (st : Store) : bool :=
  is_some (registros st).

Definition table {A : Type} (o : option (list A)) : list A :=
  match o with Some l => l | None => [] end.

(** The logical record a fact row and an emotion row stand for. *)
Definition record_of (re : RegistroEmocional * Emocion) : Row :=
  {| id := r_id (fst re);
     adulto := r_adulto_id (fst re);
     fecha := r_fecha (fst re);
     turno := r_turno (fst re);
     emocion := e_nombre (snd re);
     estado := r_estado (fst re);
     comentario := r_comentario (fst re) |}.

(** The logical records of a store read under a schema.  In the
    two-table form they are the pairs of a fact row and an emotion row,
    out of all pairs, in which the emotion row has the id the fact row
    refers to; in the one-table form they are the rows of the table. *)
Definition records (st : Store) (sch : Schema) : list Row :=
  match sch with
  | dos_tablas =>
      map record_of
          (filter (fun re => Z.eqb (r_emocion_id (fst re)) (e_id (snd re)))
                  (list_prod (table (registro_emocional st))
                             (table (emociones st))))
  | una_tabla => table (registros st)
  end.

(** The (date, shift, id) triple of a record. *)
Definition row_key (r : Row) : Sql.Key := (fecha r, turno r, id r).

(** [a] comes no later than [b] in the (date, shift, id) order. *)
Definition key_le (a b : Row) : Prop :=
  Sql.key_leb (row_key a) (row_key b) = true.

(** [y] may follow [x] in a listing that descends by [key]. *)
Definition follows {A : Type} (key : A -> Sql.Key) (x y : A) : Prop :=
  Sql.key_leb (key y) (key x) = true.

(** Ordered by (date, shift, id) descending. *)
Definition descending (rows : list Row) : Prop :=
  StronglySorted (follows row_key) rows.

Definition of_subject (subject : string) (r : Row) : bool :=
  adulto r =? Text.strip subject.

(** A bound is in force when the argument is a non-empty text; the date
    of the row is then compared with it as text, the bound included. *)
Definition from_date (desde : option string) (r : Row) : bool :=
  match desde with
  | Some (String _ _ as d) => negb (String.ltb (fecha r) d)
  | _ => true
  end.

Definition to_date (hasta : option string) (r : Row) : bool :=
  match hasta with
  | Some (String _ _ as h) => negb (String.ltb h (fecha r))
  | _ => true
  end.

(** [a] is not after [b] in the order of (date, shift, id): an earlier
    date, or the same date and an earlier shift, or the same date and
    shift and an id that is not greater. *)
Definition not_after (a b : Row) : Prop :=
  String.ltb (fecha a) (fecha b) = true
  \/ (fecha a = fecha b
      /\ (String.ltb (turno a) (turno b) = true
          \/ (turno a = turno b /\ (id a <= id b)%Z))).

(** Listed from the latest to the earliest. *)
Definition newest_first (rows : list Row) : Prop :=
  StronglySorted (fun x y => not_after y x) rows.

(** The (date, shift, id) triple tells the rows of the list apart. *)
Definition keyed (rows : list Row) : Prop :=
  forall a b,
    In a rows -> In b rows ->
    fecha a = fecha b -> turno a = turno b -> id a = id b -> a = b.

(** The uppercase normalization of a shift argument. *)
Definition normal_turno (t : string) : string := Text.upper (Text.strip t).

Definition of_turno (turno_arg : option string) (r : Row) : bool :=
  if Text.truthy turno_arg then turno r =? normal_turno (arg turno_arg)
  else true.

(** The records of one subject, the subject being trimmed. *)
Definition candidates (st : Store) (sch : Schema) (subject : string)
  : list Row :=
  filter (of_subject subject) (records st sch).

(** The rows a history request asks for. *)
Definition selected (subject : string) (desde hasta turno_arg : option string)
    (r : Row) : bool :=
  of_subject subject r && from_date desde r && to_date hasta r
  && of_turno turno_arg r.

(** A result that is [expected] but for the order of rows with the same
    date, shift and id, which the ORDER BY clause leaves open: the same
    exception, or the same rows each as often, and the very same list when
    no two of its rows share date, shift and id. *)
Definition up_to_ties (res expected : Result (list Row)) : Prop :=
  match expected with
  | Raise e => res = Raise e
  | Ok l => exists rows, res = Ok rows
                         /\ Permutation rows l
                         /\ (keyed l -> rows = l)
  end.

(** The content of the file at [path], if the program wrote one. *)
Definition file_content (w : World) (path : string) : option string :=
  match find (fun pc => String.eqb (fst pc) path) (files w) with
  | Some pc => Some (snd pc)
  | None => None
  end.

(** The texts of a list, one after the other. *)
Definition cat (l : list string) : string :=
  fold_right String.append EmptyString l.

(** Two records that the export cannot tell apart: equal but for a NULL
    comment against an empty one. *)
Definition same_export (r r' : Row) : Prop :=
  id r = id r' /\ adulto r = adulto r' /\ fecha r = fecha r'
  /\ turno r = turno r' /\ emocion r = emocion r' /\ estado r = estado r'
  /\ arg (comentario r) = arg (comentario r').

(** A piece of text that is one whole character: as many bytes as its
    first byte announces. *)
Definition complete (c : string) : bool :=
  match c with
  | EmptyString => false
  | String a _ => Nat.eqb (String.length c) (Text.lead_len a)
  end.

(** A piece that [Text.chars] leaves in one piece. *)
Definition chunk (c : string) : Prop := Text.chars c = [c].

(** A sequence of pieces as [Text.chars] yields them: whole characters,
    and at the very end possibly one cut short. *)
Fixpoint good (l : list string) : Prop :=
  match l with
  | [] => True
  | c :: l' =>
      match l' with
      | [] => chunk c
      | _ :: _ => complete c = true
      end /\ good l'
  end.

(** The sequence starts with a blank. *)
Definition head_blank (l : list string) : bool :=
  match l with
  | [] => false
  | c :: _ => Text.is_blank c
  end.

(** The characters a character becomes in uppercase. *)
Definition pieces (c : string) : list string := Text.chars (Text.upper_char c).

(** What the case table must satisfy for uppercasing to behave: each key
    is one whole character above U+007F that is not a blank, and each
    image is a non-empty run of whole characters, none a blank, that
    uppercasing leaves as it is. *)
Definition image_ok (v : string) : bool :=
  Text.nonempty v
  && forallb complete (Text.chars v)
  && forallb (fun c => negb (Text.is_blank c)) (Text.chars v)
  && String.eqb (Text.upper v) v.

Definition entry_ok (kv : string * string) : bool :=
  complete (fst kv) && negb (Text.is_blank (fst kv))
  && Nat.ltb 1 (String.length (fst kv)) && image_ok (snd kv).

(** A computation that ends in an exception. *)
Definition fails {A : Type} (r : Result A) : Prop := exists e, r = Raise e.

(** *** Stores of the examples *)

Definition maria_m : Row :=
  mkRow 1 "Maria" "2024-01-01" "M" "alegre" "ok" None.

Definition maria_t : Row :=
  mkRow 2 "Maria" "2024-01-02" "T" "triste" "ok" (Some "durmio mal").

Definition pedro_m : Row :=
  mkRow 3 "Pedro" "2024-01-03" "M" "alegre" "ok" None.

Definition store_maria : Store :=
  mkStore None None (Some [maria_m; maria_t]).

Definition store_una : Store :=
  mkStore None None (Some [maria_m; maria_t; pedro_m]).

Definition store_dos : Store :=
  mkStore
    (Some [ mkRegistroEmocional 1 "Maria" "2024-01-01" "M" 10 "ok" None;
            mkRegistroEmocional 2 "Maria" "2024-01-02" "T" 20 "ok"
              (Some "durmio mal") ])
    (Some [ mkEmocion 10 "alegre"; mkEmocion 20 "triste" ])
    None.

(** A store whose shifts are spelled out, one of them missing. *)
Definition rosa_m : Row :=
  mkRow 4 "Rosa" "2024-03-01" "MAÑANA" "calma" "ok" None.

Definition rosa_sin : Row :=
  mkRow 5 "Rosa" "2024-03-02" EmptyString "calma" "ok" None.

Definition store_rosa : Store :=
  mkStore None None (Some [rosa_m; rosa_sin]).

Definition store_ambos : Store :=
  mkStore (registro_emocional store_dos) (emociones store_dos)
          (registros store_una).

Definition store_vacio : Store := mkStore None None None.

(** *** Worlds and command lines of the examples *)

(** A world with nothing printed or written yet, in which [db] tells what
    opens at each path. *)
Definition world_of (db : string -> option Connection) (lines : list string)
  : World :=
  mkWorld lines [] [] db (fun _ => None) (fun p => p).

(** No database file can be opened, as for a path into a directory that
    does not exist. *)
Definition world_sin_db : World := world_of (fun _ => None) [].

(** [--db /no/existe/emociones.db actual --adulto Maria] *)
Definition args_actual : Args :=
  mkArgs "/no/existe/emociones.db" (Some "actual") "Maria" None None None None.

(** *** The CSV file expected of a list of records *)

(** The seven texts of a record, in the order of the header: the id in
    decimal, the five texts, and the comment, empty for [None]. *)
Definition record_fields (r : Row) : list string :=
  [DecimalString.NilZero.string_of_int (Z.to_int (id r));
   adulto r; fecha r; turno r; emocion r; estado r;
   match comentario r with Some c => c | None => EmptyString end].

(** The quote character, as a text. *)
Definition dquote : string := String "034"%char EmptyString.

(** A record with a comma in the name and quotes in the comment. *)
Definition ana_n : Row :=
  mkRow 10 "Ana, la mayor" "2024-02-03" "N" "calma" "ok"
        (Some ("dijo " ++ dquote ++ "bien" ++ dquote)%string).

(** The file expected for [[maria_m; maria_t; ana_n]], byte by byte. *)
Definition export_sample : string :=
  ("id,adulto,fecha,turno,emocion,estado,comentario" ++ CRLF
  ++ "1,Maria,2024-01-01,M,alegre,ok," ++ CRLF
  ++ "2,Maria,2024-01-02,T,triste,ok,durmio mal" ++ CRLF
  ++ "10," ++ dquote ++ "Ana, la mayor" ++ dquote
  ++ ",2024-02-03,N,calma,ok,"
  ++ dquote ++ "dijo " ++ dquote ++ dquote ++ "bien" ++ dquote ++ dquote
  ++ dquote ++ CRLF)%string.

(** * Properties *)

(** ** The (date, shift, id) order *)

Lemma string_compare_refl (s : string) : String.compare s s = Eq.
Proof.
  induction s as [|c s IH]; simpl; [reflexivity|].
  unfold Ascii.compare. now rewrite N.compare_refl.
Qed.

Lemma string_compare_lt_trans (a b c : string) :
  String.compare a b = Lt -> String.compare b c = Lt ->
  String.compare a c = Lt.
Proof.
  revert b c.
  induction a as [|x a IH]; intros [|y b] [|z c]; simpl; try congruence.
  unfold Ascii.compare.
  destruct (N.compare_spec (N_of_ascii x) (N_of_ascii y)) as [Exy|Lxy|Gxy];
    try discriminate;
    destruct (N.compare_spec (N_of_ascii y) (N_of_ascii z)) as [Eyz|Lyz|Gyz];
    try discriminate; intros Hab Hbc.
  - rewrite Exy, Eyz, N.compare_refl. eauto.
  - rewrite Exy. now apply N.compare_lt_iff in Lyz as ->.
  - rewrite <- Eyz. now apply N.compare_lt_iff in Lxy as ->.
  - assert (H : (N_of_ascii x < N_of_ascii z)%N) by lia.
    now apply N.compare_lt_iff in H as ->.
Qed.

Lemma string_compare_eq (a b : string) : String.compare a b = Eq -> a = b.
Proof. apply String.compare_eq_iff. Qed.

Lemma key_compare_refl (k : Sql.Key) : Sql.key_compare k k = Eq.
Proof.
  destruct k as [[f t] i]. simpl.
  now rewrite !string_compare_refl, Z.compare_refl.
Qed.

Lemma key_compare_antisym (a b : Sql.Key) :
  Sql.key_compare a b = CompOpp (Sql.key_compare b a).
Proof.
  destruct a as [[fa ta] ia], b as [[fb tb] ib]. simpl.
  rewrite (String.compare_antisym fa fb), (String.compare_antisym ta tb),
    (Z.compare_antisym ib ia).
  destruct (String.compare fb fa); simpl; try reflexivity.
  destruct (String.compare tb ta); simpl; reflexivity.
Qed.

Lemma key_compare_eq (a b : Sql.Key) : Sql.key_compare a b = Eq -> a = b.
Proof.
  destruct a as [[fa ta] ia], b as [[fb tb] ib]. simpl.
  destruct (String.compare fa fb) eqn:Ef; try discriminate.
  destruct (String.compare ta tb) eqn:Et; try discriminate.
  intros Ei. apply string_compare_eq in Ef, Et. apply Z.compare_eq in Ei.
  now subst.
Qed.

Lemma key_compare_lt_trans (a b c : Sql.Key) :
  Sql.key_compare a b = Lt -> Sql.key_compare b c = Lt ->
  Sql.key_compare a c = Lt.
Proof.
  destruct a as [[fa ta] ia], b as [[fb tb] ib], c as [[fc tc] ic]. simpl.
  destruct (String.compare fa fb) eqn:Eab; try discriminate;
    destruct (String.compare fb fc) eqn:Ebc; try discriminate.
  - apply string_compare_eq in Eab, Ebc. subst. rewrite string_compare_refl.
    destruct (String.compare ta tb) eqn:Tab; try discriminate;
      destruct (String.compare tb tc) eqn:Tbc; try discriminate.
    + apply string_compare_eq in Tab, Tbc. subst.
      rewrite string_compare_refl.
      rewrite !Z.compare_lt_iff. lia.
    + apply string_compare_eq in Tab. subst. now rewrite Tbc.
    + apply string_compare_eq in Tbc. subst. now rewrite Tab.
    + now rewrite (string_compare_lt_trans _ _ _ Tab Tbc).
  - apply string_compare_eq in Eab. subst. now rewrite Ebc.
  - apply string_compare_eq in Ebc. subst. now rewrite Eab.
  - now rewrite (string_compare_lt_trans _ _ _ Eab Ebc).
Qed.

Lemma key_leb_refl (k : Sql.Key) : Sql.key_leb k k = true.
Proof. unfold Sql.key_leb. now rewrite key_compare_refl. Qed.

Lemma key_leb_total (a b : Sql.Key) :
  Sql.key_leb a b = false -> Sql.key_leb b a = true.
Proof.
  unfold Sql.key_leb. rewrite (key_compare_antisym b a).
  destruct (Sql.key_compare a b); simpl; congruence.
Qed.

Lemma key_leb_trans (a b c : Sql.Key) :
  Sql.key_leb a b = true -> Sql.key_leb b c = true -> Sql.key_leb a c = true.
Proof.
  unfold Sql.key_leb.
  destruct (Sql.key_compare a b) eqn:Eab; try discriminate;
    destruct (Sql.key_compare b c) eqn:Ebc; try discriminate; intros _ _.
  - apply key_compare_eq in Eab, Ebc. subst. now rewrite key_compare_refl.
  - apply key_compare_eq in Eab. subst. now rewrite Ebc.
  - apply key_compare_eq in Ebc. subst. now rewrite Eab.
  - now rewrite (key_compare_lt_trans _ _ _ Eab Ebc).
Qed.

(** ** Sorting by key *)

Section OrderBy.

Variable A : Type.
Variable key : A -> Sql.Key.

Lemma insert_desc_perm (x : A) (l : list A) :
  Permutation (Sql.insert_desc key x l) (x :: l).
Proof.
  induction l as [|y l IH]; simpl; [apply Permutation_refl|].
  destruct (Sql.key_leb (key y) (key x)); [apply Permutation_refl|].
  eapply perm_trans; [apply perm_skip, IH | apply perm_swap].
Qed.

Lemma order_by_desc_perm (l : list A) :
  Permutation (Sql.order_by_desc key l) l.
Proof.
  induction l as [|x l IH]; simpl; [constructor|].
  eapply perm_trans; [apply insert_desc_perm | now apply perm_skip].
Qed.

Lemma insert_desc_in (x y : A) (l : list A) :
  In y (Sql.insert_desc key x l) <-> y = x \/ In y l.
Proof.
  split; intros H.
  - apply (Permutation_in _ (insert_desc_perm x l)) in H.
    destruct H; [left; congruence | now right].
  - apply (Permutation_in _ (Permutation_sym (insert_desc_perm x l))).
    destruct H; [left; congruence | now right].
Qed.

Lemma insert_desc_sorted (x : A) (l : list A) :
  StronglySorted (follows key) l -> StronglySorted (follows key) (Sql.insert_desc key x l).
Proof.
  induction 1 as [|y l Hl IH Hy]; simpl.
  - repeat constructor.
  - destruct (Sql.key_leb (key y) (key x)) eqn:E.
    + constructor; [now constructor|].
      constructor; [exact E|].
      rewrite Forall_forall in Hy |- *. intros z Hz. unfold follows.
      eapply key_leb_trans; [apply (Hy z Hz) | exact E].
    + constructor; [exact IH|].
      rewrite Forall_forall in Hy |- *. intros z Hz.
      apply insert_desc_in in Hz. destruct Hz as [->|Hz]; [|now apply Hy].
      now apply key_leb_total.
Qed.

Lemma order_by_desc_sorted (l : list A) :
  StronglySorted (follows key) (Sql.order_by_desc key l).
Proof.
  induction l as [|x l IH]; simpl; [constructor|].
  now apply insert_desc_sorted.
Qed.

(** Filtering a sorted list and inserting commute. *)
Lemma filter_insert_desc (q : A -> bool) (x : A) (l : list A) :
  StronglySorted (follows key) l ->
  filter q (Sql.insert_desc key x l) =
  if q x then Sql.insert_desc key x (filter q l) else filter q l.
Proof.
  induction 1 as [|y l Hl IH Hy]; simpl.
  - now destruct (q x).
  - destruct (Sql.key_leb (key y) (key x)) eqn:E; simpl.
    + destruct (q x) eqn:Qx; [|reflexivity].
      destruct (q y) eqn:Qy; simpl; [now rewrite E|].
      assert (Hf : Forall (fun z => Sql.key_leb (key z) (key x) = true)
                     (filter q l)).
      { rewrite Forall_forall in Hy |- *. intros z Hz.
        apply filter_In in Hz. destruct Hz as [Hz _].
        eapply key_leb_trans; [apply (Hy z Hz) | exact E]. }
      destruct (filter q l) as [|z l'']; [reflexivity|].
      simpl. inversion Hf as [|? ? Hz _]; subst. now rewrite Hz.
    + rewrite IH. destruct (q y) eqn:Qy; simpl.
      * destruct (q x); [now rewrite E | reflexivity].
      * reflexivity.
Qed.

Lemma filter_order_by_desc (q : A -> bool) (l : list A) :
  filter q (Sql.order_by_desc key l) = Sql.order_by_desc key (filter q l).
Proof.
  induction l as [|x l IH]; simpl; [reflexivity|].
  rewrite filter_insert_desc by apply order_by_desc_sorted.
  rewrite IH. now destruct (q x).
Qed.

End OrderBy.

(** Sorting the source rows and projecting is sorting the projected rows,
    when the sort key is the (date, shift, id) triple of the projection. *)
Lemma map_insert_desc (A : Type) (key : A -> Sql.Key) (project : A -> Row) :
  (forall a, key a = row_key (project a)) ->
  forall x l,
    map project (Sql.insert_desc key x l) =
    Sql.insert_desc row_key (project x) (map project l).
Proof.
  intros Hk x l. induction l as [|y l IH]; simpl; [reflexivity|].
  rewrite <- !Hk. destruct (Sql.key_leb (key y) (key x)); simpl;
    [reflexivity | now rewrite IH].
Qed.

Lemma map_order_by_desc (A : Type) (key : A -> Sql.Key) (project : A -> Row) :
  (forall a, key a = row_key (project a)) ->
  forall l,
    map project (Sql.order_by_desc key l) =
    Sql.order_by_desc row_key (map project l).
Proof.
  intros Hk l. induction l as [|x l IH]; simpl; [reflexivity|].
  now rewrite map_insert_desc, IH.
Qed.

Lemma filter_map_comm (A B : Type) (f : A -> B) (q : B -> bool) (l : list A) :
  map f (filter (fun a => q (f a)) l) = filter q (map f l).
Proof.
  induction l as [|x l IH]; simpl; [reflexivity|].
  destruct (q (f x)); simpl; now rewrite IH.
Qed.

Lemma sorted_rows_descending (l : list Row) :
  descending (Sql.order_by_desc row_key l).
Proof. apply order_by_desc_sorted. Qed.

(** ** Schema detection *)

Lemma detect_schema_Conn (st : Store) :
  detect_schema (Conn st) =
  if two_table_form st then Ok dos_tablas
  else if one_table_form st then Ok una_tabla
  else Raise (RuntimeError no_schema_msg).
Proof.
  unfold detect_schema, has_table, two_table_form, one_table_form. simpl.
  destruct (registro_emocional st), (emociones st), (registros st);
    reflexivity.
Qed.

Lemma detect_schema_Unusable (msg : string) :
  detect_schema (Unusable msg) = Raise (SqliteError msg).
Proof. reflexivity. Qed.

(** A detected schema names tables that exist. *)
Lemma detect_schema_tables (st : Store) (sch : Schema) :
  detect_schema (Conn st) = Ok sch ->
  match sch with
  | dos_tablas =>
      exists rs es, registro_emocional st = Some rs /\ emociones st = Some es
  | una_tabla => exists rs, registros st = Some rs
  end.
Proof.
  rewrite detect_schema_Conn. unfold two_table_form, one_table_form.
  destruct (registro_emocional st) as [rs|], (emociones st) as [es|],
    (registros st) as [r1|]; simpl; intros H; inversion H; subst; eauto.
Qed.

(** C3.  A store holding only the two-table pair is detected as
    [dos_tablas]; a store holding the single table and not the pair (in
    particular one holding only [registros]) is detected as [una_tabla];
    a store holding neither form makes detection raise the
    no-recognized-schema [RuntimeError]. *)
Theorem detect_schema_recognizes (st : Store) :
  (two_table_form st = true -> one_table_form st = false ->
   detect_schema (Conn st) = Ok dos_tablas)
  /\ (two_table_form st = false -> one_table_form st = true ->
      detect_schema (Conn st) = Ok una_tabla)
  /\ (two_table_form st = false -> one_table_form st = false ->
      detect_schema (Conn st) = Raise (RuntimeError no_schema_msg)).
Proof.
  rewrite detect_schema_Conn.
  repeat split; intros H2 H1; now rewrite H2, ?H1.
Qed.

Lemma detect_schema_recognizes_witness :
  detect_schema (Conn store_dos) = Ok dos_tablas
  /\ detect_schema (Conn store_una) = Ok una_tabla
  /\ detect_schema (Conn store_vacio) = Raise (RuntimeError no_schema_msg).
Proof.
  split; [|split].
  - apply (proj1 (detect_schema_recognizes store_dos)); reflexivity.
  - apply (proj1 (proj2 (detect_schema_recognizes store_una))); reflexivity.
  - apply (proj2 (proj2 (detect_schema_recognizes store_vacio))); reflexivity.
Defined.

(** C4, as stated, fails: with both forms present detection succeeds. *)
Lemma both_forms_are_accepted :
  two_table_form store_ambos = true
  /\ one_table_form store_ambos = true
  /\ ~ fails (detect_schema (Conn store_ambos)).
Proof.
  split; [reflexivity | split; [reflexivity|]].
  intros [e He]. discriminate He.
Qed.

(** C4, amended.  Whenever the two-table pair is present, and so also
    when both forms are present at once, detection returns [dos_tablas]:
    the pair takes precedence.  Detection fails exactly when neither form
    is present. *)
Theorem detect_schema_precedence (st : Store) :
  (two_table_form st = true -> detect_schema (Conn st) = Ok dos_tablas)
  /\ (fails (detect_schema (Conn st)) <->
      two_table_form st = false /\ one_table_form st = false).
Proof.
  rewrite detect_schema_Conn. split.
  - now intros ->.
  - destruct (two_table_form st), (one_table_form st); split;
      try (intros [e He]; discriminate He);
      try (intros [Ha Hb]; discriminate);
      try (intros _; split; reflexivity).
    intros _. now exists (RuntimeError no_schema_msg).
Qed.

Lemma detect_schema_precedence_witness :
  detect_schema (Conn store_ambos) = Ok dos_tablas
  /\ fails (detect_schema (Conn store_vacio)).
Proof.
  split.
  - apply (proj1 (detect_schema_precedence store_ambos)); reflexivity.
  - apply (proj2 (detect_schema_precedence store_vacio)); split; reflexivity.
Defined.


(** ** The join *)

Lemma join_row (r : RegistroEmocional) (es : list Emocion) :
  map (fun e => (r, e)) (filter (fun e => Z.eqb (e_id e) (r_emocion_id r)) es)
  = filter (fun re => Z.eqb (r_emocion_id (fst re)) (e_id (snd re)))
           (map (fun e => (r, e)) es).
Proof.
  induction es as [|e es IH]; simpl; [reflexivity|].
  rewrite (Z.eqb_sym (e_id e)).
  destruct (Z.eqb (r_emocion_id r) (e_id e)); simpl; now rewrite IH.
Qed.

(** The nested loop of the join yields the pairs of the product whose
    emotion ids agree, in the same order. *)
Lemma join_as_product (rs : list RegistroEmocional) (es : list Emocion) :
  Sql.join rs es
  = filter (fun re => Z.eqb (r_emocion_id (fst re)) (e_id (snd re)))
           (list_prod rs es).
Proof.
  unfold Sql.join. induction rs as [|r rs IH]; simpl; [reflexivity|].
  now rewrite filter_app, <- IH, join_row.
Qed.

Lemma project_dos_record (re : RegistroEmocional * Emocion) :
  Sql.project_dos re = record_of re.
Proof. now destruct re. Qed.

Lemma records_dos (st : Store) (rs : list RegistroEmocional)
    (es : list Emocion) :
  registro_emocional st = Some rs -> emociones st = Some es ->
  records st dos_tablas = map Sql.project_dos (Sql.join rs es).
Proof.
  intros Hr He. unfold records. rewrite Hr, He. simpl table.
  rewrite join_as_product. apply map_ext. intros re.
  now rewrite project_dos_record.
Qed.

(** ** The queries *)

Lemma select_spec (A : Type) (column : string -> option (A -> string))
    (key : A -> Sql.Key) (project : A -> Row) (rows : list A)
    (clauses : list Sql.Clause) (params : list string) (lim : option nat)
    (keep : A -> bool) (q : Row -> bool) :
  Sql.bind_where column clauses params = Ok keep ->
  (forall a, keep a = q (project a)) ->
  (forall a, key a = row_key (project a)) ->
  Sql.select column key project rows clauses params lim =
  Ok (Sql.limit lim (Sql.order_by_desc row_key (filter q (map project rows)))).
Proof.
  intros Hw Hq Hk. unfold Sql.select. rewrite Hw. simpl.
  rewrite (map_order_by_desc _ _ _ Hk).
  rewrite (filter_ext _ _ Hq), filter_map_comm. reflexivity.
Qed.

Lemma key_dos_project (re : RegistroEmocional * Emocion) :
  Sql.key_dos re = row_key (Sql.project_dos re).
Proof. now destruct re. Qed.

Lemma key_una_project (r : Row) : Sql.key_una r = row_key (Sql.project_una r).
Proof. reflexivity. Qed.

Lemma negb_ltb_leb (a b : string) :
  negb (String.ltb a b) = String.leb b a.
Proof.
  unfold String.ltb, String.leb. rewrite (String.compare_antisym a b).
  now destruct (String.compare b a).
Qed.

(** The bounds of the specification are the comparisons of the WHERE
    clause. *)
Lemma from_date_code (d : option string) (r : Row) :
  from_date d r = if Text.truthy d then Text.ge (fecha r) (arg d) else true.
Proof.
  destruct d as [[|c d]|]; [reflexivity | | reflexivity].
  unfold from_date, Text.truthy, Text.nonempty, arg, Text.ge.
  apply negb_ltb_leb.
Qed.

Lemma to_date_code (h : option string) (r : Row) :
  to_date h r = if Text.truthy h then Text.le (fecha r) (arg h) else true.
Proof.
  destruct h as [[|c h]|]; [reflexivity | | reflexivity].
  unfold to_date, Text.truthy, Text.nonempty, arg, Text.le.
  apply negb_ltb_leb.
Qed.

Lemma selected_code (a : string) (d h t : option string) (r : Row) :
  selected a d h t r
  = (adulto r =? Text.strip a)
    && (if Text.truthy d then Text.ge (fecha r) (arg d) else true)
    && (if Text.truthy h then Text.le (fecha r) (arg h) else true)
    && (if Text.truthy t
        then turno r =? Text.upper (Text.strip (arg t)) else true).
Proof.
  unfold selected, of_subject, of_turno, normal_turno.
  now rewrite from_date_code, to_date_code.
Qed.

(** What [fetch_historial] computes on a store whose schema is detected. *)
Lemma fetch_historial_spec (st : Store) (sch : Schema) (a : string)
    (d h t : option string) :
  detect_schema (Conn st) = Ok sch ->
  fetch_historial (Conn st) a d h t =
  Ok (Sql.order_by_desc row_key (filter (selected a d h t) (records st sch))).
Proof.
  intros Hs. unfold fetch_historial. rewrite Hs. simpl bind.
  pose proof (detect_schema_tables _ _ Hs) as Ht.
  erewrite filter_ext; [|intros r; apply selected_code].
  unfold add_filter.
  destruct sch.
  - destruct Ht as (rs & es & Hr & He). unfold Sql.execute.
    rewrite (records_dos st rs es Hr He), Hr, He.
    destruct (Text.truthy d), (Text.truthy h), (Text.truthy t); simpl fst;
      simpl snd;
      (eapply select_spec with (lim := None);
       [ reflexivity
       | intros [r e]; simpl; unfold normal_turno;
         now rewrite ?andb_true_r, ?andb_assoc
       | apply key_dos_project ]).
  - destruct Ht as (rs & Hr). unfold Sql.execute, records.
    rewrite Hr. simpl table.
    destruct (Text.truthy d), (Text.truthy h), (Text.truthy t); simpl fst;
      simpl snd;
      (erewrite select_spec with (lim := None);
       [ unfold Sql.project_una; rewrite map_id; reflexivity
       | reflexivity
       | intros r; simpl; unfold normal_turno;
         now rewrite ?andb_true_r, ?andb_assoc
       | apply key_una_project ]).
Qed.

(** What [fetch_ultimo] computes on a store whose schema is detected. *)
Lemma fetch_ultimo_spec (st : Store) (sch : Schema) (a : string) :
  detect_schema (Conn st) = Ok sch ->
  fetch_ultimo (Conn st) a =
  Ok (hd_error (Sql.order_by_desc row_key (candidates st sch a))).
Proof.
  intros Hs. unfold fetch_ultimo. rewrite Hs. simpl bind.
  pose proof (detect_schema_tables _ _ Hs) as Ht.
  unfold candidates, of_subject.
  destruct sch.
  - destruct Ht as (rs & es & Hr & He). unfold Sql.execute.
    rewrite (records_dos st rs es Hr He), Hr, He.
    erewrite select_spec with (q := fun r => adulto r =? Text.strip a);
      [ | reflexivity
        | intros [r e]; simpl; now rewrite ?andb_true_r
        | apply key_dos_project ].
    simpl. now destruct (Sql.order_by_desc _ _).
  - destruct Ht as (rs & Hr). unfold Sql.execute, records.
    rewrite Hr. simpl table.
    erewrite select_spec with (q := fun r => adulto r =? Text.strip a);
      [ | reflexivity
        | intros r; simpl; now rewrite ?andb_true_r
        | apply key_una_project ].
    unfold Sql.project_una. rewrite map_id. simpl.
    now destruct (Sql.order_by_desc _ _).
Qed.

(** Both queries raise what schema detection raises. *)
Lemma fetch_ultimo_raises (conn : Connection) (a : string) (e : Exn) :
  detect_schema conn = Raise e -> fetch_ultimo conn a = Raise e.
Proof. intros H. unfold fetch_ultimo. now rewrite H. Qed.

Lemma fetch_historial_raises (conn : Connection) (a : string)
    (d h t : option string) (e : Exn) :
  detect_schema conn = Raise e -> fetch_historial conn a d h t = Raise e.
Proof. intros H. unfold fetch_historial. now rewrite H. Qed.

Lemma detect_schema_Ok_Conn (conn : Connection) (sch : Schema) :
  detect_schema conn = Ok sch -> exists st, conn = Conn st.
Proof. destruct conn as [st|msg]; [eauto | discriminate]. Qed.

(** The head of a descending listing is a maximum of the listed rows. *)
Lemma head_is_maximum (l : list Row) (r : Row) :
  hd_error (Sql.order_by_desc row_key l) = Some r ->
  In r l /\ forall r', In r' l -> key_le r' r.
Proof.
  intros H.
  pose proof (order_by_desc_perm _ row_key l) as Hp.
  pose proof (order_by_desc_sorted _ row_key l) as Hsrt.
  destruct (Sql.order_by_desc row_key l) as [|x s]; [discriminate|].
  injection H as ->. split.
  - apply (Permutation_in _ Hp). now left.
  - intros r' Hr'. apply (Permutation_in _ (Permutation_sym Hp)) in Hr'.
    apply StronglySorted_inv in Hsrt as [_ Hall].
    destruct Hr' as [<-|Hr']; [apply key_leb_refl|].
    rewrite Forall_forall in Hall. now apply Hall.
Qed.

Lemma head_none_is_empty (l : list Row) :
  hd_error (Sql.order_by_desc row_key l) = None -> l = [].
Proof.
  intros H. pose proof (order_by_desc_perm _ row_key l) as Hp.
  destruct (Sql.order_by_desc row_key l); [|discriminate].
  now apply Permutation_nil.
Qed.

Lemma key_le_antisym (a b : Row) : key_le a b -> key_le b a -> row_key a = row_key b.
Proof.
  unfold key_le, Sql.key_leb. rewrite (key_compare_antisym (row_key b)).
  destruct (Sql.key_compare (row_key a) (row_key b)) eqn:E; simpl;
    try discriminate.
  intros _ _. now apply key_compare_eq.
Qed.

Lemma NoDup_map_eq (A B : Type) (f : A -> B) (l : list A) (x y : A) :
  NoDup (map f l) -> In x l -> In y l -> f x = f y -> x = y.
Proof.
  induction l as [|z l IH]; simpl; [tauto|].
  intros Hn Hx Hy Hf. apply NoDup_cons_iff in Hn as [Hz Hn].
  destruct Hx as [->|Hx], Hy as [->|Hy]; auto.
  - exfalso. apply Hz. rewrite Hf. now apply in_map.
  - exfalso. apply Hz. rewrite <- Hf. now apply in_map.
Qed.

(** The order of the specification is the order the query sorts by. *)
Lemma key_le_not_after (a b : Row) : key_le a b <-> not_after a b.
Proof.
  unfold key_le, not_after, Sql.key_leb, row_key, Sql.key_compare, String.ltb.
  destruct (String.compare (fecha a) (fecha b)) eqn:Ef.
  - apply string_compare_eq in Ef.
    destruct (String.compare (turno a) (turno b)) eqn:Et.
    + apply string_compare_eq in Et.
      destruct (Z.compare (id a) (id b)) eqn:Ei; split; intros H;
        try discriminate; try reflexivity.
      * right. split; [exact Ef|]. right. split; [exact Et|].
        apply Z.compare_eq in Ei. lia.
      * right. split; [exact Ef|]. right. split; [exact Et|].
        rewrite Z.compare_lt_iff in Ei. lia.
      * destruct H as [H|(_ & [H|(_ & H)])]; try discriminate.
        rewrite Z.compare_gt_iff in Ei. lia.
    + split; intros _; [|reflexivity]. right. split; [exact Ef|]. now left.
    + split; intros H; [discriminate|].
      destruct H as [H|(_ & [H|(Heq & _)])]; try discriminate.
      rewrite Heq, string_compare_refl in Et. discriminate.
  - split; intros _; [now left | reflexivity].
  - split; intros H; [discriminate|].
    destruct H as [H|(Heq & _)]; [discriminate|].
    rewrite Heq, string_compare_refl in Ef. discriminate.
Qed.

Lemma descending_newest_first (rows : list Row) :
  descending rows -> newest_first rows.
Proof.
  unfold descending, newest_first. induction 1 as [|x l Hl IH Hx];
    constructor; [exact IH|].
  rewrite Forall_forall in *. intros y Hy. apply key_le_not_after.
  now apply Hx.
Qed.

Lemma not_after_antisym (a b : Row) :
  not_after a b -> not_after b a ->
  fecha a = fecha b /\ turno a = turno b /\ id a = id b.
Proof.
  intros H1 H2. apply key_le_not_after in H1, H2.
  pose proof (key_le_antisym _ _ H1 H2) as Hk. unfold row_key in Hk.
  injection Hk as -> -> ->. auto.
Qed.

(** C1.  On a store whose schema is detected, [fetch_ultimo] returns a
    record of the trimmed subject that no record of that subject comes
    after in the order of (date, shift, id), the only such record when
    the triple tells the subject's records apart, and [None] when the
    subject has no record; it does not raise.  On the one-table store with
    Maria's rows of 2024-01-01/M and 2024-01-02/T it returns the row of
    2024-01-02/T; so it does on the two-table store with the same records,
    and for a subject given with blanks around it, the no-break space
    among them. *)
Theorem fetch_ultimo_maximum :
  (forall (st : Store) (sch : Schema) (subject : string),
      detect_schema (Conn st) = Ok sch ->
      match fetch_ultimo (Conn st) subject with
      | Ok (Some r) =>
          In r (candidates st sch subject)
          /\ (forall r', In r' (candidates st sch subject) -> not_after r' r)
          /\ (keyed (candidates st sch subject) ->
              forall r', In r' (candidates st sch subject) ->
                         not_after r r' -> r' = r)
      | Ok None => candidates st sch subject = []
      | Raise _ => False
      end)
  /\ fetch_ultimo (Conn store_maria) "Maria" = Ok (Some maria_t)
  /\ fetch_ultimo (Conn store_dos) "  Maria " = Ok (Some maria_t)
  /\ fetch_ultimo (Conn store_maria)
                  (Text.of_bytes [194; 160] ++ "Maria" ++ Text.of_bytes [9])
     = Ok (Some maria_t)
  /\ fetch_ultimo (Conn store_una) "Pedro" = Ok (Some pedro_m)
  /\ fetch_ultimo (Conn store_dos) "Pedro" = Ok None.
Proof.
  split; [|repeat split; reflexivity].
  intros st sch subject Hs. rewrite (fetch_ultimo_spec _ _ _ Hs).
  destruct (hd_error _) as [r|] eqn:Hh.
  - apply head_is_maximum in Hh as [Hin Hmax]. split; [exact Hin|]. split.
    + intros r' Hr'. apply key_le_not_after. now apply Hmax.
    + intros Hk r' Hr' Hle.
      assert (Hge : not_after r' r) by (apply key_le_not_after; auto).
      destruct (not_after_antisym _ _ Hle Hge) as (Hf & Ht & Hi).
      now apply Hk.
  - now apply head_none_is_empty.
Qed.

Lemma fetch_ultimo_maximum_witness :
  match fetch_ultimo (Conn store_dos) " Maria " with
  | Ok (Some r) =>
      In r (candidates store_dos dos_tablas " Maria ")
      /\ (forall r', In r' (candidates store_dos dos_tablas " Maria ") ->
                     not_after r' r)
      /\ (keyed (candidates store_dos dos_tablas " Maria ") ->
          forall r', In r' (candidates store_dos dos_tablas " Maria ") ->
                     not_after r r' -> r' = r)
  | Ok None => candidates store_dos dos_tablas " Maria " = []
  | Raise _ => False
  end.
Proof.
  apply (proj1 fetch_ultimo_maximum store_dos dos_tablas " Maria ").
  reflexivity.
Defined.

(** C2.  On a store whose schema is detected, [fetch_historial] without a
    shift filter returns exactly the records of the trimmed subject whose
    date is not before [desde] and not after [hasta], each bound being in
    force when it is given as a non-empty text and absent otherwise, and
    lists them from the latest to the earliest by (date, shift, id).  On
    Maria's two rows: both bounds on 2024-01-02 give the row of that day,
    a lower bound alone and an upper bound alone give the day on their
    side, and no bound gives both rows, the later first. *)
Theorem fetch_historial_bounds :
  (forall (st : Store) (sch : Schema) (subject : string)
          (desde hasta : option string),
      detect_schema (Conn st) = Ok sch ->
      exists rows,
        fetch_historial (Conn st) subject desde hasta None = Ok rows
        /\ Permutation rows
             (filter (fun r => of_subject subject r && from_date desde r
                               && to_date hasta r)
                     (records st sch))
        /\ newest_first rows)
  /\ fetch_historial (Conn store_una) "Maria" (Some "2024-01-02")
                     (Some "2024-01-02") None = Ok [maria_t]
  /\ fetch_historial (Conn store_una) "Maria" (Some "2024-01-02") None None
     = Ok [maria_t]
  /\ fetch_historial (Conn store_dos) "Maria" None (Some "2024-01-01") None
     = Ok [maria_m]
  /\ fetch_historial (Conn store_dos) "Maria" (Some "2024-01-01")
                     (Some "2024-01-02") None = Ok [maria_t; maria_m]
  /\ fetch_historial (Conn store_una) "Maria" (Some "2024-01-03") None None
     = Ok [].
Proof.
  split; [|repeat split; reflexivity].
  intros st sch subject desde hasta Hs.
  rewrite (fetch_historial_spec _ _ _ _ _ _ Hs).
  eexists. split; [reflexivity|]. split.
  - rewrite order_by_desc_perm. apply Permutation_refl'.
    apply filter_ext. intros r. unfold selected, of_turno. simpl.
    now rewrite andb_true_r.
  - apply descending_newest_first, sorted_rows_descending.
Qed.

Lemma fetch_historial_bounds_witness :
  exists rows,
    fetch_historial (Conn store_una) "Maria" (Some "2024-01-02") None None
    = Ok rows
    /\ Permutation rows
         (filter (fun r => of_subject "Maria" r
                           && from_date (Some "2024-01-02") r
                           && to_date None r)
                 (records store_una una_tabla))
    /\ newest_first rows.
Proof.
  apply (proj1 fetch_historial_bounds store_una una_tabla "Maria"
           (Some "2024-01-02") None).
  reflexivity.
Defined.

(** ** Text as characters *)

Lemma append_assoc (a b c : string) : ((a ++ b) ++ c = a ++ (b ++ c))%string.
Proof. induction a as [|x a IH]; simpl; [reflexivity | now rewrite IH]. Qed.

Lemma append_nil_r (a : string) : (a ++ EmptyString)%string = a.
Proof. induction a as [|x a IH]; simpl; [reflexivity | now rewrite IH]. Qed.

Lemma lead_len_bounds (a : ascii) :
  (1 <= Text.lead_len a <= 4)%nat.
Proof.
  unfold Text.lead_len.
  repeat match goal with
         | |- context [if ?b then _ else _] => destruct b
         end; lia.
Qed.

Lemma unchars_app (l1 l2 : list string) :
  Text.unchars (l1 ++ l2) = (Text.unchars l1 ++ Text.unchars l2)%string.
Proof.
  induction l1 as [|c l1 IH]; simpl; [reflexivity|].
  now rewrite IH, append_assoc.
Qed.

Lemma unchars_chars_aux (n : nat) :
  forall s, (String.length s <= n)%nat -> Text.unchars (Text.chars s) = s.
Proof.
  induction n as [|n IH]; intros s Hn.
  - destruct s; [reflexivity | simpl in Hn; lia].
  - destruct s as [|a r1]; [reflexivity|]. simpl in Hn. simpl Text.chars.
    pose proof (lead_len_bounds a) as Hb.
    destruct (Text.lead_len a) as [|[|[|[|[|k]]]]]; try lia;
      try (simpl; rewrite IH by lia; reflexivity).
    + destruct r1 as [|b r2]; [reflexivity|]. simpl in *.
      now rewrite IH by lia.
    + destruct r1 as [|b [|c r3]]; try reflexivity. simpl in *.
      now rewrite IH by lia.
    + destruct r1 as [|b [|c [|d r4]]]; try reflexivity. simpl in *.
      now rewrite IH by lia.
Qed.

(** Splitting a text into characters loses nothing. *)
Lemma unchars_chars (s : string) : Text.unchars (Text.chars s) = s.
Proof. now apply (unchars_chars_aux (String.length s)). Qed.

(** A whole character is read off the front of any text. *)
Lemma chars_complete_app (c x : string) :
  complete c = true -> Text.chars (c ++ x) = c :: Text.chars x.
Proof.
  unfold complete. destruct c as [|a r]; [discriminate|].
  intros H. apply Nat.eqb_eq in H. pose proof (lead_len_bounds a) as Hb.
  destruct r as [|b [|c [|d [|e r]]]]; simpl in H; simpl;
    destruct (Text.lead_len a) as [|[|[|[|[|k]]]]]; try discriminate H;
    try lia; reflexivity.
Qed.

Lemma complete_chunk (c : string) : complete c = true -> chunk c.
Proof.
  intros H. unfold chunk. rewrite <- (append_nil_r c) at 1.
  now rewrite chars_complete_app.
Qed.

Lemma good_tail (c : string) (l : list string) : good (c :: l) -> good l.
Proof. simpl. tauto. Qed.

Lemma good_chunks (l : list string) : good l -> Forall chunk l.
Proof.
  induction l as [|c l IH]; intros H; constructor.
  - destruct H as [H _]. destruct l; [exact H | now apply complete_chunk].
  - apply IH. now apply good_tail in H.
Qed.

Lemma chars_unchars (l : list string) :
  good l -> Text.chars (Text.unchars l) = l.
Proof.
  induction l as [|c l IH]; intros H; [reflexivity|].
  destruct l as [|c' l].
  - simpl. rewrite append_nil_r. apply H.
  - destruct H as [Hc H]. change (Text.unchars (c :: c' :: l))
      with (c ++ Text.unchars (c' :: l))%string.
    rewrite chars_complete_app by exact Hc. now rewrite IH.
Qed.

Lemma good_cons_complete (c : string) (l : list string) :
  complete c = true -> good l -> good (c :: l).
Proof.
  intros Hc Hl. split; [|exact Hl].
  destruct l; [now apply complete_chunk | exact Hc].
Qed.

Lemma good_chars_aux (n : nat) :
  forall s, (String.length s <= n)%nat -> good (Text.chars s).
Proof.
  induction n as [|n IH]; intros s Hn.
  - destruct s; [exact I | simpl in Hn; lia].
  - destruct s as [|a r1]; [exact I|]. simpl in Hn. simpl Text.chars.
    pose proof (lead_len_bounds a) as Hb.
    destruct (Text.lead_len a) as [|[|[|[|[|k]]]]] eqn:E; try lia;
      try (apply good_cons_complete; [|apply IH; lia];
           unfold complete, Text.s1; simpl; now rewrite E).
    + destruct r1 as [|b r2].
      * split; [|exact I]. unfold chunk. simpl. now rewrite E.
      * apply good_cons_complete; [|apply IH; simpl in Hn; lia].
        unfold complete, Text.s2, Text.s1. simpl. now rewrite E.
    + destruct r1 as [|b [|c r3]].
      * split; [|exact I]. unfold chunk. simpl. now rewrite E.
      * split; [|exact I]. unfold chunk. simpl. now rewrite E.
      * apply good_cons_complete; [|apply IH; simpl in Hn; lia].
        unfold complete, Text.s3, Text.s2, Text.s1. simpl. now rewrite E.
    + destruct r1 as [|b [|c [|d r4]]].
      * split; [|exact I]. unfold chunk. simpl. now rewrite E.
      * split; [|exact I]. unfold chunk. simpl. now rewrite E.
      * split; [|exact I]. unfold chunk. simpl. now rewrite E.
      * apply good_cons_complete; [|apply IH; simpl in Hn; lia].
        unfold complete, Text.s4, Text.s3, Text.s2, Text.s1. simpl.
        now rewrite E.
Qed.

Lemma good_chars (s : string) : good (Text.chars s).
Proof. now apply (good_chars_aux (String.length s)). Qed.

(** ** Trimming *)

Lemma good_app_l (l1 l2 : list string) : good (l1 ++ l2) -> good l1.
Proof.
  induction l1 as [|c l1 IH]; intros H; [exact I|].
  simpl app in H. pose proof (IH (good_tail _ _ H)) as Hl.
  destruct l1 as [|c' l1].
  - split; [|exact I]. destruct H as [H _].
    destruct l2; simpl in H; [exact H | now apply complete_chunk].
  - split; [apply H | exact Hl].
Qed.

Lemma drop_blanks_suffix (l : list string) :
  exists b, l = b ++ Text.drop_blanks l.
Proof.
  induction l as [|c l [b IH]]; [now exists []|]. simpl.
  destruct (Text.is_blank c); [|now exists []].
  exists (c :: b). simpl. now rewrite <- IH.
Qed.

Lemma drop_blanks_end_prefix (l : list string) :
  exists b, l = Text.drop_blanks_end l ++ b.
Proof.
  induction l as [|c l [b IH]]; [now exists []|]. simpl.
  destruct (Text.drop_blanks_end l) as [|d t].
  - destruct (Text.is_blank c); [now exists (c :: l)|].
    exists b. simpl in *. now rewrite <- IH.
  - exists b. simpl in *. now rewrite <- IH.
Qed.

Lemma good_app_r (l1 l2 : list string) : good (l1 ++ l2) -> good l2.
Proof.
  induction l1 as [|c l1 IH]; intros H; [exact H|].
  apply IH. now apply good_tail in H.
Qed.

Lemma good_drop_blanks (l : list string) : good l -> good (Text.drop_blanks l).
Proof.
  intros H. destruct (drop_blanks_suffix l) as [b Hb].
  rewrite Hb in H. now apply good_app_r in H.
Qed.

Lemma good_drop_blanks_end (l : list string) :
  good l -> good (Text.drop_blanks_end l).
Proof.
  intros H. destruct (drop_blanks_end_prefix l) as [b Hb].
  rewrite Hb in H. now apply good_app_l in H.
Qed.

(** The characters of a trimmed text are the characters left by dropping
    the blanks at both ends. *)
Lemma chars_strip (s : string) :
  Text.chars (Text.strip s)
  = Text.drop_blanks_end (Text.drop_blanks (Text.chars s)).
Proof.
  unfold Text.strip. apply chars_unchars.
  apply good_drop_blanks_end, good_drop_blanks, good_chars.
Qed.

Lemma drop_blanks_head (l : list string) :
  head_blank (Text.drop_blanks l) = false.
Proof.
  induction l as [|c l IH]; simpl; [reflexivity|].
  destruct (Text.is_blank c) eqn:E; [exact IH | simpl; exact E].
Qed.

Lemma drop_blanks_fixed (l : list string) :
  head_blank l = false -> Text.drop_blanks l = l.
Proof. destruct l as [|c l]; simpl; [reflexivity | now intros ->]. Qed.

Lemma drop_blanks_end_head (l : list string) :
  head_blank l = false -> head_blank (Text.drop_blanks_end l) = false.
Proof.
  destruct l as [|c l]; simpl; [reflexivity|]. intros E.
  destruct (Text.drop_blanks_end l); simpl; now rewrite ?E.
Qed.

Lemma drop_blanks_end_idem (l : list string) :
  Text.drop_blanks_end (Text.drop_blanks_end l) = Text.drop_blanks_end l.
Proof.
  induction l as [|c l IH]; simpl; [reflexivity|].
  destruct (Text.drop_blanks_end l) as [|d t] eqn:E.
  - destruct (Text.is_blank c) eqn:Ec; simpl; [reflexivity | now rewrite Ec].
  - change (Text.drop_blanks_end (c :: d :: t))
      with (match Text.drop_blanks_end (d :: t) with
            | [] => if Text.is_blank c then [] else [c]
            | u => c :: u
            end).
    now rewrite IH.
Qed.

Lemma strip_idem (s : string) : Text.strip (Text.strip s) = Text.strip s.
Proof.
  unfold Text.strip at 1. rewrite chars_strip.
  rewrite (drop_blanks_fixed (Text.drop_blanks_end _)).
  - now rewrite drop_blanks_end_idem.
  - apply drop_blanks_end_head, drop_blanks_head.
Qed.

(** ** Uppercase *)

Lemma case_table_ok : forallb entry_ok Text.case_table = true.
Proof. vm_compute. reflexivity. Qed.

Lemma blanks_ok :
  forallb (fun b => complete b && String.eqb (Text.upper_char b) b)
          Text.blanks = true.
Proof. vm_compute. reflexivity. Qed.

Lemma chars_s1 (a : ascii) : Text.chars (Text.s1 a) = [Text.s1 a].
Proof.
  unfold Text.s1. simpl.
  destruct (Text.lead_len a) as [|[|[|[|[|k]]]]]; reflexivity.
Qed.

Lemma upper_ascii_idem (a : ascii) :
  Text.upper_ascii (Text.upper_ascii a) = Text.upper_ascii a.
Proof. destruct a as [[] [] [] [] [] [] [] []]; reflexivity. Qed.

Lemma upper_ascii_blank (a : ascii) :
  Text.is_blank (Text.s1 (Text.upper_ascii a)) = Text.is_blank (Text.s1 a).
Proof. destruct a as [[] [] [] [] [] [] [] []]; reflexivity. Qed.

Lemma upper_ascii_lead (a : ascii) :
  Text.lead_len (Text.upper_ascii a) = Text.lead_len a.
Proof. destruct a as [[] [] [] [] [] [] [] []]; reflexivity. Qed.

Lemma upper_ascii_high (a : ascii) :
  Text.lead_len a = 1%nat \/ Text.upper_ascii a = a.
Proof.
  destruct a as [[] [] [] [] [] [] [] []];
    first [left; reflexivity | right; reflexivity].
Qed.

(** The three ways a character is uppercased. *)
Lemma upper_char_cases (c : string) :
  (exists a, c = Text.s1 a /\ Text.upper_char c = Text.s1 (Text.upper_ascii a))
  \/ (exists kv, fst kv = c /\ Text.upper_char c = snd kv
                 /\ entry_ok kv = true)
  \/ (Text.upper_char c = c /\ forall a, c <> Text.s1 a).
Proof.
  assert (Hfind :
            (exists kv, fst kv = c
                        /\ find (fun kv => String.eqb (fst kv) c)
                                Text.case_table = Some kv
                        /\ entry_ok kv = true)
            \/ find (fun kv => String.eqb (fst kv) c) Text.case_table = None).
  { destruct (find _ Text.case_table) as [kv|] eqn:E; [left | now right].
    apply find_some in E as [Hin Heq]. apply String.eqb_eq in Heq.
    exists kv. repeat split; [exact Heq|].
    pose proof case_table_ok as Hok. rewrite forallb_forall in Hok. auto. }
  destruct c as [|a [|b r]].
  - destruct Hfind as [(kv & H1 & H2 & H3)|Hn].
    + right. left. exists kv. unfold Text.upper_char. now rewrite H2.
    + right. right. unfold Text.upper_char. rewrite Hn. split; [reflexivity|].
      discriminate.
  - left. now exists a.
  - destruct Hfind as [(kv & H1 & H2 & H3)|Hn].
    + right. left. exists kv. unfold Text.upper_char. now rewrite H2.
    + right. right. unfold Text.upper_char. rewrite Hn. split; [reflexivity|].
      discriminate.
Qed.

Lemma entry_ok_inv (kv : string * string) :
  entry_ok kv = true ->
  complete (fst kv) = true
  /\ Text.is_blank (fst kv) = false
  /\ Text.nonempty (snd kv) = true
  /\ Forall (fun x => complete x = true) (Text.chars (snd kv))
  /\ Forall (fun x => Text.is_blank x = false) (Text.chars (snd kv))
  /\ Text.upper (snd kv) = snd kv.
Proof.
  unfold entry_ok, image_ok. intros H.
  apply andb_true_iff in H as [H Hi]. apply andb_true_iff in H as [H _].
  apply andb_true_iff in H as [Hc Hb].
  apply andb_true_iff in Hi as [Hi Hu]. apply andb_true_iff in Hi as [Hi Hnb].
  apply andb_true_iff in Hi as [Hne Hco].
  rewrite forallb_forall in Hco, Hnb.
  split; [exact Hc|]. split; [now apply negb_true_iff|].
  split; [exact Hne|]. split; [now apply Forall_forall|].
  split; [|now apply String.eqb_eq].
  apply Forall_forall. intros x Hx. apply negb_true_iff. auto.
Qed.

Lemma is_blank_inv (c : string) :
  Text.is_blank c = true -> complete c = true /\ Text.upper_char c = c.
Proof.
  unfold Text.is_blank. intros H. apply existsb_exists in H as (b & Hin & Hb).
  apply String.eqb_eq in Hb. subst b.
  pose proof blanks_ok as Hok. rewrite forallb_forall in Hok.
  specialize (Hok c Hin). apply andb_true_iff in Hok as [H1 H2].
  now apply String.eqb_eq in H2.
Qed.

(** A blank is its own uppercase. *)
Lemma pieces_blank (c : string) : Text.is_blank c = true -> pieces c = [c].
Proof.
  intros H. destruct (is_blank_inv c H) as [Hc Hu]. unfold pieces.
  rewrite Hu. now apply complete_chunk.
Qed.

Lemma pieces_short (c : string) :
  chunk c -> complete c = false -> pieces c = [c].
Proof.
  intros Hc Hn. unfold pieces.
  destruct (upper_char_cases c) as [(a & -> & Hu)|[(kv & Hk & Hu & Hok)|[Hu _]]].
  - rewrite Hu. destruct (upper_ascii_high a) as [Hl|Hl].
    + unfold complete, Text.s1 in Hn. simpl in Hn. now rewrite Hl in Hn.
    + rewrite Hl. apply chars_s1.
  - apply entry_ok_inv in Hok as (Hco & _). rewrite Hk in Hco. congruence.
  - now rewrite Hu.
Qed.

Lemma pieces_complete (c : string) :
  complete c = true -> Forall (fun x => complete x = true) (pieces c).
Proof.
  intros Hc. unfold pieces.
  destruct (upper_char_cases c) as [(a & -> & Hu)|[(kv & Hk & Hu & Hok)|[Hu _]]].
  - rewrite Hu, chars_s1. constructor; [|constructor].
    unfold complete, Text.s1 in *. simpl in *. now rewrite upper_ascii_lead.
  - rewrite Hu. now apply entry_ok_inv in Hok.
  - rewrite Hu, (complete_chunk _ Hc). now constructor.
Qed.

Lemma pieces_not_blank (c : string) :
  chunk c -> Text.is_blank c = false ->
  pieces c <> [] /\ Forall (fun x => Text.is_blank x = false) (pieces c).
Proof.
  intros Hc Hb. unfold pieces.
  destruct (upper_char_cases c) as [(a & -> & Hu)|[(kv & Hk & Hu & Hok)|[Hu _]]].
  - rewrite Hu, chars_s1. split; [discriminate|].
    constructor; [|constructor]. now rewrite upper_ascii_blank.
  - rewrite Hu. apply entry_ok_inv in Hok as (_ & _ & Hne & _ & Hnb & _).
    split; [|exact Hnb]. intros Hnil.
    pose proof (unchars_chars (snd kv)) as Hs. rewrite Hnil in Hs.
    simpl in Hs. now rewrite <- Hs in Hne.
  - rewrite Hu, Hc. split; [discriminate|]. now constructor.
Qed.

Lemma upper_upper_char (c : string) :
  chunk c -> Text.upper (Text.upper_char c) = Text.upper_char c.
Proof.
  intros Hc.
  destruct (upper_char_cases c) as [(a & -> & Hu)|[(kv & Hk & Hu & Hok)|[Hu Hn]]].
  - rewrite Hu. unfold Text.upper. rewrite chars_s1. simpl.
    unfold Text.s1. now rewrite upper_ascii_idem.
  - rewrite Hu. now apply entry_ok_inv in Hok.
  - rewrite Hu. unfold Text.upper. rewrite Hc. simpl.
    rewrite Hu. apply append_nil_r.
Qed.

Lemma good_all_complete (l1 l2 : list string) :
  Forall (fun x => complete x = true) l1 -> good l2 -> good (l1 ++ l2).
Proof.
  induction 1 as [|c l1 Hc _ IH]; intros H2; [exact H2|].
  simpl. now apply good_cons_complete; [|apply IH].
Qed.

Lemma good_pieces (l : list string) : good l -> good (flat_map pieces l).
Proof.
  induction l as [|c l IH]; intros H; [exact I|]. simpl flat_map.
  pose proof (good_chunks _ H) as Hch. inversion Hch as [|? ? Hc _]; subst.
  destruct (complete c) eqn:E.
  - apply good_all_complete; [now apply pieces_complete|].
    apply IH. now apply good_tail in H.
  - destruct l as [|c' l]; [|destruct H; congruence].
    rewrite (pieces_short _ Hc E). simpl. now split.
Qed.

Lemma unchars_pieces (l : list string) :
  Text.unchars (flat_map pieces l) = Text.unchars (map Text.upper_char l).
Proof.
  induction l as [|c l IH]; [reflexivity|]. simpl.
  rewrite unchars_app, IH. unfold pieces. now rewrite unchars_chars.
Qed.

(** The characters of the uppercase of a text. *)
Lemma chars_upper (s : string) :
  Text.chars (Text.upper s) = flat_map pieces (Text.chars s).
Proof.
  unfold Text.upper. rewrite <- unchars_pieces.
  apply chars_unchars, good_pieces, good_chars.
Qed.

Lemma upper_pieces (l : list string) :
  Forall chunk l ->
  Text.unchars (map Text.upper_char (flat_map pieces l))
  = Text.unchars (map Text.upper_char l).
Proof.
  induction 1 as [|c l Hc _ IH]; [reflexivity|]. simpl.
  rewrite map_app, unchars_app, IH. f_equal.
  exact (upper_upper_char c Hc).
Qed.

Lemma upper_idem (s : string) : Text.upper (Text.upper s) = Text.upper s.
Proof.
  unfold Text.upper at 1. rewrite chars_upper.
  apply upper_pieces, good_chunks, good_chars.
Qed.

Lemma drop_blanks_pieces (l : list string) :
  Forall chunk l ->
  Text.drop_blanks (flat_map pieces l) = flat_map pieces (Text.drop_blanks l).
Proof.
  induction 1 as [|c l Hc _ IH]; [reflexivity|]. simpl.
  destruct (Text.is_blank c) eqn:E.
  - rewrite (pieces_blank _ E). simpl. now rewrite E.
  - destruct (pieces_not_blank _ Hc E) as [Hne Hall]. simpl.
    destruct (pieces c) as [|p ps]; [congruence|].
    inversion Hall as [|? ? Hp _]; subst. simpl. now rewrite Hp.
Qed.

Lemma drop_blanks_end_app (x y : list string) :
  Text.drop_blanks_end (x ++ y)
  = match Text.drop_blanks_end y with
    | [] => Text.drop_blanks_end x
    | t => x ++ t
    end.
Proof.
  induction x as [|c x IH]; simpl.
  - now destruct (Text.drop_blanks_end y).
  - rewrite IH. destruct (Text.drop_blanks_end y) as [|d t]; [reflexivity|].
    now destruct x.
Qed.

Lemma drop_blanks_end_clean (x : list string) :
  Forall (fun c => Text.is_blank c = false) x -> Text.drop_blanks_end x = x.
Proof.
  induction 1 as [|c x Hc _ IH]; [reflexivity|]. simpl. rewrite IH.
  destruct x; [now rewrite Hc | reflexivity].
Qed.

Lemma drop_blanks_end_pieces (l : list string) :
  Forall chunk l ->
  Text.drop_blanks_end (flat_map pieces l)
  = flat_map pieces (Text.drop_blanks_end l).
Proof.
  induction 1 as [|c l Hc Hl IH]; [reflexivity|]. simpl flat_map.
  rewrite drop_blanks_end_app, IH. simpl Text.drop_blanks_end.
  destruct (Text.drop_blanks_end l) as [|d t] eqn:El.
  - simpl. destruct (Text.is_blank c) eqn:E.
    + rewrite (pieces_blank _ E). simpl. now rewrite E.
    + simpl. rewrite app_nil_r. apply drop_blanks_end_clean.
      now apply pieces_not_blank.
  - destruct (flat_map pieces (d :: t)) as [|u v] eqn:Ef;
      [|simpl in *; now rewrite Ef].
    exfalso. simpl in Ef. apply app_eq_nil in Ef as [Hd _].
    assert (Hchunk : chunk d).
    { assert (Hin : In d (Text.drop_blanks_end l)) by (rewrite El; now left).
      destruct (drop_blanks_end_prefix l) as [b Hb].
      rewrite Forall_forall in Hl. apply Hl. rewrite Hb.
      apply in_or_app. now left. }
    destruct (Text.is_blank d) eqn:E.
    + rewrite (pieces_blank _ E) in Hd. discriminate.
    + now apply (pieces_not_blank _ Hchunk E).
Qed.

Lemma Forall_drop_blanks (P : string -> Prop) (l : list string) :
  Forall P l -> Forall P (Text.drop_blanks l).
Proof.
  intros H. destruct (drop_blanks_suffix l) as [b Hb].
  rewrite Hb in H. now apply Forall_app in H.
Qed.

(** Trimming and uppercasing commute. *)
Lemma strip_upper (s : string) :
  Text.strip (Text.upper s) = Text.upper (Text.strip s).
Proof.
  pose proof (good_chunks _ (good_chars s)) as Hc.
  unfold Text.strip at 1. rewrite chars_upper, drop_blanks_pieces by exact Hc.
  rewrite drop_blanks_end_pieces by now apply Forall_drop_blanks.
  rewrite unchars_pieces. unfold Text.upper. now rewrite chars_strip.
Qed.

Lemma nonempty_upper (t : string) :
  Text.nonempty (Text.upper t) = Text.nonempty t.
Proof.
  destruct t as [|a r]; [reflexivity|]. simpl Text.nonempty at 2.
  pose proof (good_chunks _ (good_chars (String a r))) as Hc.
  pose proof (unchars_chars (String a r)) as Hs.
  unfold Text.upper.
  destruct (Text.chars (String a r)) as [|c l]; [discriminate|].
  inversion Hc as [|? ? Hch _]; subst. simpl.
  assert (Hne : Text.nonempty (Text.upper_char c) = true).
  { pose proof (upper_upper_char c Hch) as Hu.
    destruct (upper_char_cases c) as [(b & -> & E)|[(kv & Hk & E & Hok)|[E _]]].
    - now rewrite E.
    - rewrite E. now apply entry_ok_inv in Hok.
    - rewrite E. unfold chunk in Hch. destruct c; [discriminate|reflexivity]. }
  destruct (Text.upper_char c); [discriminate|reflexivity].
Qed.
(** ** Listings that differ only in the order of ties *)

Lemma not_after_refl (a : Row) : not_after a a.
Proof.
  unfold not_after. right. split; [reflexivity|].
  right. split; [reflexivity|lia].
Qed.

Lemma keyed_incl (l l' : list Row) :
  (forall x, In x l' -> In x l) -> keyed l -> keyed l'.
Proof. intros Hi Hk a b Ha Hb. apply Hk; now apply Hi. Qed.

Lemma newest_first_unique (l1 : list Row) :
  forall l2, newest_first l1 -> newest_first l2 -> Permutation l1 l2 ->
             keyed l1 -> l1 = l2.
Proof.
  unfold newest_first.
  induction l1 as [|x l1 IH]; intros l2 H1 H2 Hp Hk.
  - now apply Permutation_nil in Hp.
  - destruct l2 as [|y l2];
      [apply Permutation_sym, Permutation_nil in Hp; discriminate|].
    apply StronglySorted_inv in H1 as [H1 Hx].
    apply StronglySorted_inv in H2 as [H2 Hy].
    rewrite Forall_forall in Hx, Hy.
    assert (Hyx : not_after y x).
    { destruct (Permutation_in y (Permutation_sym Hp) (or_introl eq_refl))
        as [->|Hin]; [apply not_after_refl | now apply Hx]. }
    assert (Hxy : not_after x y).
    { destruct (Permutation_in x Hp (or_introl eq_refl))
        as [->|Hin]; [apply not_after_refl | now apply Hy]. }
    destruct (not_after_antisym _ _ Hxy Hyx) as (Hf & Ht & Hi).
    assert (Heq : x = y).
    { apply Hk; auto; [now left|].
      apply (Permutation_in y (Permutation_sym Hp)). now left. }
    subst y. f_equal. apply IH; auto.
    + now apply Permutation_cons_inv in Hp.
    + apply (keyed_incl (x :: l1)); [|exact Hk]. intros z Hz. now right.
Qed.

Lemma filter_perm (A : Type) (p : A -> bool) (l l' : list A) :
  Permutation l l' -> Permutation (filter p l) (filter p l').
Proof.
  induction 1 as [|x l l' H IH|x y l|l l' l'' H1 IH1 H2 IH2]; simpl.
  - constructor.
  - destruct (p x); [now constructor | exact IH].
  - destruct (p x), (p y); try apply Permutation_refl. constructor.
  - now apply perm_trans with (filter p l').
Qed.

Lemma order_by_desc_rows_unique (l l' : list Row) :
  Permutation l l' -> keyed l ->
  Sql.order_by_desc row_key l = Sql.order_by_desc row_key l'.
Proof.
  intros Hp Hk. apply newest_first_unique.
  - apply descending_newest_first, sorted_rows_descending.
  - apply descending_newest_first, sorted_rows_descending.
  - eapply perm_trans; [apply order_by_desc_perm|].
    eapply perm_trans; [exact Hp|]. apply Permutation_sym, order_by_desc_perm.
  - apply (keyed_incl l); [|exact Hk]. intros x Hx.
    exact (Permutation_in x (order_by_desc_perm _ row_key l) Hx).
Qed.

Lemma up_to_ties_eq (res expected : Result (list Row)) :
  res = expected -> up_to_ties res expected.
Proof.
  intros ->. destruct expected as [l|e]; simpl; [|reflexivity].
  exists l. repeat split; auto.
Qed.

(** ** Case and blanks of the shift argument *)

Lemma normal_turno_upper (t : string) :
  normal_turno (Text.upper t) = normal_turno t.
Proof. unfold normal_turno. now rewrite strip_upper, upper_idem. Qed.

Lemma nonempty_true (t : string) : t <> EmptyString -> Text.nonempty t = true.
Proof. destruct t; [congruence | reflexivity]. Qed.

(** The query depends on the shift argument through its truth value and
    its normal form only. *)
Lemma fetch_historial_turno_ext (conn : Connection) (a : string)
    (d h : option string) (t t' : string) :
  Text.nonempty t = Text.nonempty t' ->
  normal_turno t = normal_turno t' ->
  fetch_historial conn a d h (Some t) = fetch_historial conn a d h (Some t').
Proof.
  intros Hn Hu. unfold fetch_historial, normal_turno in *. simpl Text.truthy.
  simpl arg. now rewrite Hn, Hu.
Qed.

Lemma filter_andb (A : Type) (p q : A -> bool) (l : list A) :
  filter (fun x => p x && q x) l = filter q (filter p l).
Proof.
  induction l as [|x l IH]; simpl; [reflexivity|].
  destruct (p x); simpl; [destruct (q x)|]; now rewrite IH.
Qed.

(** With a non-empty shift argument the history is the unfiltered history
    restricted to the rows of the normalized shift. *)
Lemma fetch_historial_turno_filter (conn : Connection) (a : string)
    (d h : option string) (t : string) :
  t <> EmptyString ->
  fetch_historial conn a d h (Some t) =
  (rows <- fetch_historial conn a d h None ;;
   Ok (filter (fun r => turno r =? normal_turno t) rows)).
Proof.
  intros Ht. destruct (detect_schema conn) as [sch|e] eqn:Hs.
  - destruct (detect_schema_Ok_Conn _ _ Hs) as [st ->].
    rewrite !(fetch_historial_spec _ _ _ _ _ _ Hs). simpl bind.
    rewrite filter_order_by_desc, <- filter_andb.
    do 2 f_equal. apply filter_ext. intros r.
    unfold selected, of_turno. simpl Text.truthy. simpl arg.
    now rewrite (nonempty_true _ Ht), andb_true_r.
  - now rewrite !(fetch_historial_raises _ _ _ _ _ _ Hs).
Qed.

(** C7.  For a non-empty shift argument, the history is the same for the
    argument and for its uppercase, and every row returned carries the
    shift that is the uppercase of the trimmed argument: the rows returned
    are those of the history without shift filter that carry it, each as
    often.  So [" m "] selects the rows of shift [M], and the uppercase is
    Python's for every letter: of [ñ] it is [Ñ], of [ß] it is [SS]. *)
Theorem fetch_historial_turno_case :
  (forall (conn : Connection) (subject : string)
          (desde hasta : option string) (t : string),
      t <> EmptyString ->
      fetch_historial conn subject desde hasta (Some t)
      = fetch_historial conn subject desde hasta (Some (Text.upper t))
      /\ (forall rows,
             fetch_historial conn subject desde hasta (Some t) = Ok rows ->
             Forall (fun r => turno r = normal_turno t) rows
             /\ (forall rows0,
                    fetch_historial conn subject desde hasta None = Ok rows0 ->
                    Permutation rows
                      (filter (fun r => turno r =? normal_turno t) rows0))))
  /\ normal_turno " m " = "M"
  /\ normal_turno "ñ" = "Ñ"
  /\ Text.upper "straße" = "STRASSE"
  /\ fetch_historial (Conn store_maria) "Maria" None None (Some " m")
     = Ok [maria_m]
  /\ fetch_historial (Conn store_dos) "Maria" None None (Some "t ")
     = Ok [maria_t].
Proof.
  split; [|repeat split; reflexivity].
  intros conn subject desde hasta t Ht. split.
  - apply fetch_historial_turno_ext;
      [now rewrite nonempty_upper | now rewrite normal_turno_upper].
  - intros rows. rewrite (fetch_historial_turno_filter _ _ _ _ _ Ht).
    destruct (fetch_historial conn subject desde hasta None) as [l|e];
      simpl; [|discriminate].
    intros H. injection H as <-. split.
    + apply Forall_forall. intros r Hr.
      apply filter_In in Hr as [_ Hr]. now apply String.eqb_eq.
    + intros rows0 H0. injection H0 as <-. apply Permutation_refl.
Qed.

Lemma fetch_historial_turno_case_witness :
  fetch_historial (Conn store_una) "Maria" None None (Some " m")
  = fetch_historial (Conn store_una) "Maria" None None (Some (Text.upper " m"))
  /\ (forall rows,
         fetch_historial (Conn store_una) "Maria" None None (Some " m")
         = Ok rows ->
         Forall (fun r => turno r = normal_turno " m") rows
         /\ (forall rows0,
                fetch_historial (Conn store_una) "Maria" None None None
                = Ok rows0 ->
                Permutation rows
                  (filter (fun r => turno r =? normal_turno " m") rows0))).
Proof.
  apply (proj1 fetch_historial_turno_case (Conn store_una) "Maria" None None
           " m").
  discriminate.
Defined.

(** ** Latest and history *)

Lemma fetch_ultimo_as_historial (conn : Connection) (subject : string) :
  fetch_ultimo conn subject
  = (rows <- fetch_historial conn subject None None None ;;
     Ok (hd_error rows)).
Proof.
  destruct (detect_schema conn) as [sch|e] eqn:Hs.
  - destruct (detect_schema_Ok_Conn _ _ Hs) as [st ->].
    rewrite (fetch_ultimo_spec _ _ _ Hs),
      (fetch_historial_spec _ _ _ _ _ _ Hs).
    simpl bind. do 3 f_equal. unfold candidates. apply filter_ext.
    intros r. unfold selected. simpl. now rewrite !andb_true_r.
  - now rewrite (fetch_ultimo_raises _ _ _ Hs),
      (fetch_historial_raises _ _ _ _ _ _ Hs).
Qed.

(** C9.  When the history without date or shift filter has a row,
    [fetch_ultimo] returns a row of that history with the date, shift and
    id of its first row, and the first row itself when no two rows of the
    history share date, shift and id; it returns [None] exactly when
    that history is empty, and raises what the history raises.  On the
    example stores: the latest row of Maria is the afternoon row that
    heads her history, that of Pedro the only row of his. *)
Theorem fetch_ultimo_is_head_of_historial :
  (forall (conn : Connection) (subject : string),
      match fetch_historial conn subject None None None with
      | Raise e => fetch_ultimo conn subject = Raise e
      | Ok [] => fetch_ultimo conn subject = Ok None
      | Ok (x :: rest) =>
          exists r, fetch_ultimo conn subject = Ok (Some r)
                    /\ In r (x :: rest)
                    /\ fecha r = fecha x /\ turno r = turno x
                    /\ id r = id x
                    /\ (keyed (x :: rest) -> r = x)
      end)
  /\ (forall (conn : Connection) (subject : string),
         fetch_ultimo conn subject = Ok None <->
         fetch_historial conn subject None None None = Ok [])
  /\ (fetch_historial (Conn store_maria) "Maria" None None None
      = Ok [maria_t; maria_m]
      /\ fetch_ultimo (Conn store_maria) "Maria" = Ok (Some maria_t))
  /\ (fetch_historial (Conn store_dos) "Maria" None None None
      = Ok [maria_t; maria_m]
      /\ fetch_ultimo (Conn store_dos) "Maria" = Ok (Some maria_t))
  /\ (fetch_historial (Conn store_una) "Pedro" None None None
      = Ok [pedro_m]
      /\ fetch_ultimo (Conn store_una) "Pedro" = Ok (Some pedro_m))
  /\ (fetch_historial (Conn store_una) "Nadie" None None None = Ok []
      /\ fetch_ultimo (Conn store_una) "Nadie" = Ok None).
Proof.
  split; [|split; [|repeat split; reflexivity]].
  - intros conn subject. rewrite fetch_ultimo_as_historial.
    destruct (fetch_historial conn subject None None None) as [[|x l]|e];
      simpl; try reflexivity.
    exists x. repeat split; auto.
  - intros conn subject. rewrite fetch_ultimo_as_historial.
    destruct (fetch_historial conn subject None None None) as [[|x l]|e];
      simpl; split; intros H; try reflexivity; discriminate H.
Qed.

(** C10.  An empty text for [desde], [hasta] or [turno] gives the result
    of leaving that filter out. *)
Theorem fetch_historial_empty_filter (conn : Connection) (subject : string)
    (desde hasta turno_arg : option string) :
  fetch_historial conn subject (Some EmptyString) hasta turno_arg
  = fetch_historial conn subject None hasta turno_arg
  /\ fetch_historial conn subject desde (Some EmptyString) turno_arg
     = fetch_historial conn subject desde None turno_arg
  /\ fetch_historial conn subject desde hasta (Some EmptyString)
     = fetch_historial conn subject desde hasta None.
Proof. repeat split. Qed.

(** ** CSV: what is written reads back *)

Lemma special_false (c : ascii) :
  Csv.special c = false ->
  Ascii.eqb c Csv.CR = false /\ Ascii.eqb c Csv.quotechar = false
  /\ Ascii.eqb c Csv.delimiter = false /\ Ascii.eqb c Csv.NL = false.
Proof.
  unfold Csv.special. intros H.
  repeat (apply orb_false_iff in H as [H ?]). auto.
Qed.

(** A run of ordinary characters extends the field being read. *)
Lemma read_unquoted (f : string) :
  Csv.has_special f = false ->
  forall acc row rest,
    Csv.read_from Csv.InField acc row (f ++ rest)
    = Csv.read_from Csv.InField (acc ++ f) row rest.
Proof.
  induction f as [|c f IH]; simpl; intros H acc row rest.
  - now rewrite append_nil_r.
  - apply orb_false_iff in H as [Hc Hf].
    destruct (special_false _ Hc) as (-> & -> & -> & ->).
    rewrite (IH Hf). unfold Csv.snoc. now rewrite append_assoc.
Qed.

Lemma start_field_unquoted (c : ascii) (f : string) :
  Csv.has_special (String c f) = false ->
  forall row rest,
    Csv.read_from Csv.StartField EmptyString row (String c f ++ rest)
    = Csv.read_from Csv.InField (String c f) row rest.
Proof.
  intros H row rest. simpl in H.
  apply orb_false_iff in H as [Hc Hf].
  destruct (special_false _ Hc) as (E1 & E2 & E3 & E4).
  simpl. rewrite E1, E2, E3, E4. now rewrite (read_unquoted _ Hf).
Qed.

Lemma start_record_unquoted (c : ascii) (f : string) :
  Csv.has_special (String c f) = false ->
  forall rest,
    Csv.read_from Csv.StartRecord EmptyString [] (String c f ++ rest)
    = Csv.read_from Csv.InField (String c f) [] rest.
Proof.
  intros H rest. simpl in H.
  apply orb_false_iff in H as [Hc Hf].
  destruct (special_false _ Hc) as (E1 & E2 & E3 & E4).
  simpl. rewrite E1, E2, E3, E4. now rewrite (read_unquoted _ Hf).
Qed.

(** Inside quotes, the escaped text up to the closing quote is the field. *)
Lemma read_quoted (f : string) :
  forall acc row rest,
    Csv.read_from Csv.InQuoted acc row
                  (Csv.escape f ++ String Csv.quotechar rest)
    = Csv.read_from Csv.QuoteInQuoted (acc ++ f) row rest.
Proof.
  induction f as [|c f IH]; intros acc row rest.
  - simpl. now rewrite append_nil_r.
  - simpl Csv.escape. destruct (Ascii.eqb c Csv.quotechar) eqn:E.
    + apply Ascii.eqb_eq in E. subst c. simpl. rewrite IH.
      unfold Csv.snoc. now rewrite append_assoc.
    + simpl. rewrite E, IH. unfold Csv.snoc. now rewrite append_assoc.
Qed.

Lemma quoted_append (f rest : string) :
  (String Csv.quotechar (Csv.escape f ++ String Csv.quotechar EmptyString)
   ++ rest
   = String Csv.quotechar (Csv.escape f ++ String Csv.quotechar rest))%string.
Proof. simpl. now rewrite append_assoc. Qed.

(** A written field followed by the delimiter closes one field. *)
Lemma field_then_delimiter (lone : bool) (f : string) (row : list string)
    (rest : string) :
  Csv.read_from Csv.StartField EmptyString row
                (Csv.field lone f ++ String Csv.delimiter rest)
  = Csv.read_from Csv.StartField EmptyString (row ++ [f]) rest.
Proof.
  unfold Csv.field.
  destruct (Csv.has_special f || lone && negb (Text.nonempty f)) eqn:Q.
  - rewrite quoted_append. simpl. now rewrite read_quoted.
  - apply orb_false_iff in Q as [Q _]. destruct f as [|c f]; [reflexivity|].
    now rewrite (start_field_unquoted _ _ Q).
Qed.

Lemma first_field_then_delimiter (lone : bool) (f rest : string) :
  Csv.read_from Csv.StartRecord EmptyString []
                (Csv.field lone f ++ String Csv.delimiter rest)
  = Csv.read_from Csv.StartField EmptyString [f] rest.
Proof.
  unfold Csv.field.
  destruct (Csv.has_special f || lone && negb (Text.nonempty f)) eqn:Q.
  - rewrite quoted_append. simpl. now rewrite read_quoted.
  - apply orb_false_iff in Q as [Q _]. destruct f as [|c f]; [reflexivity|].
    now rewrite (start_record_unquoted _ _ Q).
Qed.

(** A written field followed by CR LF closes the record. *)
Lemma field_then_crlf (lone : bool) (f : string) (row : list string)
    (rest : string) :
  Csv.read_from Csv.StartField EmptyString row (Csv.field lone f ++ CRLF ++ rest)
  = option_map (cons (row ++ [f])) (Csv.read rest).
Proof.
  unfold Csv.field, CRLF, LF.
  destruct (Csv.has_special f || lone && negb (Text.nonempty f)) eqn:Q.
  - rewrite quoted_append. simpl. now rewrite read_quoted.
  - apply orb_false_iff in Q as [Q _]. destruct f as [|c f]; [reflexivity|].
    change (String "013" (String "010" EmptyString) ++ rest)%string
      with (String "013"%char (String "010"%char rest)).
    now rewrite (start_field_unquoted _ _ Q).
Qed.

Lemma lone_field_then_crlf (f rest : string) :
  Csv.read_from Csv.StartRecord EmptyString [] (Csv.field true f ++ CRLF ++ rest)
  = option_map (cons [f]) (Csv.read rest).
Proof.
  unfold Csv.field, CRLF, LF.
  destruct (Csv.has_special f || true && negb (Text.nonempty f)) eqn:Q.
  - rewrite quoted_append. simpl. now rewrite read_quoted.
  - apply orb_false_iff in Q as [Q Q']. destruct f as [|c f]; [discriminate|].
    change (String "013" (String "010" EmptyString) ++ rest)%string
      with (String "013"%char (String "010"%char rest)).
    now rewrite (start_record_unquoted _ _ Q).
Qed.

Lemma join_cons (f g : string) (fs : list string) (rest : string) :
  (Csv.join (f :: g :: fs) ++ rest
   = f ++ String Csv.delimiter (Csv.join (g :: fs) ++ rest))%string.
Proof. simpl Csv.join. now rewrite append_assoc. Qed.

(** The fields after the first, up to the end of the record. *)
Lemma read_join (fs : list string) :
  fs <> [] ->
  forall row rest,
    Csv.read_from Csv.StartField EmptyString row
                  (Csv.join (map (Csv.field false) fs) ++ CRLF ++ rest)
    = option_map (cons (row ++ fs)) (Csv.read rest).
Proof.
  induction fs as [|f fs IH]; [congruence|]. intros _ row rest.
  destruct fs as [|g fs].
  - simpl Csv.join. apply field_then_crlf.
  - simpl map in *. rewrite join_cons, field_then_delimiter.
    rewrite IH by discriminate. now rewrite <- app_assoc.
Qed.

(** One written record reads back as the fields given to [writerow]. *)
Lemma read_writerow (fs : list string) (rest : string) :
  Csv.read (Csv.writerow fs ++ rest)
  = option_map (cons fs) (Csv.read rest).
Proof.
  unfold Csv.writerow, Csv.read. rewrite append_assoc.
  destruct fs as [|f [|g fs]].
  - reflexivity.
  - simpl map. simpl Csv.join. apply lone_field_then_crlf.
  - simpl List.length. simpl Nat.eqb. simpl map.
    rewrite join_cons, first_field_then_delimiter.
    now rewrite (read_join (g :: fs)) by discriminate.
Qed.

Lemma csv_content_cat (rows : list Row) :
  csv_content rows
  = (Csv.writerow csv_header
     ++ cat (map (fun r => Csv.writerow (csv_fields r)) rows))%string.
Proof.
  unfold csv_content. generalize (Csv.writerow csv_header) as buf.
  induction rows as [|r rows IH]; intros buf; simpl.
  - now rewrite append_nil_r.
  - now rewrite IH, append_assoc.
Qed.

Lemma read_cat_writerow (l : list (list string)) :
  Csv.read (cat (map Csv.writerow l)) = Some l.
Proof.
  induction l as [|fs l IH]; simpl; [reflexivity|].
  now rewrite read_writerow, IH.
Qed.

Lemma read_csv_content (rows : list Row) :
  Csv.read (csv_content rows) = Some (csv_header :: map csv_fields rows).
Proof.
  rewrite csv_content_cat, read_writerow.
  rewrite <- (map_map csv_fields Csv.writerow), read_cat_writerow.
  reflexivity.
Qed.

(** C5.  When the file can be opened, [export_csv] leaves in it the line
    [id,adulto,fecha,turno,emocion,estado,comentario] and then one line
    per record, in the order of the list, each holding the id in decimal,
    the name, the date, the shift, the emotion, the state and the comment
    (empty for [None]) of its record; read back as CSV the file is the
    header and then these seven texts of each record, whatever they
    hold.  For three records, one with a comma and quotes in its texts,
    the file is [export_sample] byte by byte; for none it is the header
    line alone. *)
Theorem export_csv_header_and_rows :
  (forall (rows : list Row) (out : string) (w : World),
      open_error w out = None ->
      exists (w' : World) (text : string),
        export_csv rows out w = (Ok out, w')
        /\ file_content w' out = Some text
        /\ text
           = ("id,adulto,fecha,turno,emocion,estado,comentario" ++ CRLF
              ++ cat (map (fun r => Csv.writerow (record_fields r)) rows))%string
        /\ Csv.read text
           = Some (["id"; "adulto"; "fecha"; "turno"; "emocion"; "estado";
                    "comentario"]
                   :: map record_fields rows))
  /\ (forall (out : string) (w : World),
         open_error w out = None ->
         file_content (snd (export_csv [maria_m; maria_t; ana_n] out w)) out
         = Some export_sample
         /\ file_content (snd (export_csv [] out w)) out
            = Some ("id,adulto,fecha,turno,emocion,estado,comentario"
                    ++ CRLF)%string)
  /\ Csv.read export_sample
     = Some [["id"; "adulto"; "fecha"; "turno"; "emocion"; "estado";
              "comentario"];
             ["1"; "Maria"; "2024-01-01"; "M"; "alegre"; "ok"; EmptyString];
             ["2"; "Maria"; "2024-01-02"; "T"; "triste"; "ok"; "durmio mal"];
             ["10"; "Ana, la mayor"; "2024-02-03"; "N"; "calma"; "ok";
              ("dijo " ++ dquote ++ "bien" ++ dquote)%string]].
Proof.
  split; [|split; [|reflexivity]].
  - intros rows out w Ho. unfold export_csv. rewrite Ho.
    exists (set_files w (upsert out (csv_content rows) (files w))),
      (csv_content rows).
    split; [reflexivity|]. split.
    { unfold file_content, set_files, upsert. simpl.
      now rewrite String.eqb_refl. }
    split.
    + rewrite csv_content_cat. change (Csv.writerow csv_header)
        with ("id,adulto,fecha,turno,emocion,estado,comentario" ++ CRLF)%string.
      rewrite append_assoc. f_equal.
    + rewrite read_csv_content. reflexivity.
  - intros out w Ho. unfold export_csv. rewrite Ho.
    unfold file_content, set_files, upsert. simpl.
    now rewrite String.eqb_refl.
Qed.

Lemma export_csv_header_and_rows_witness :
  exists (w' : World) (text : string),
    export_csv [maria_m; ana_n] "salida.csv" (world_of (fun _ => None) [])
    = (Ok "salida.csv", w')
    /\ file_content w' "salida.csv" = Some text
    /\ text
       = ("id,adulto,fecha,turno,emocion,estado,comentario" ++ CRLF
          ++ cat (map (fun r => Csv.writerow (record_fields r))
                      [maria_m; ana_n]))%string
    /\ Csv.read text
       = Some (["id"; "adulto"; "fecha"; "turno"; "emocion"; "estado";
                "comentario"]
               :: map record_fields [maria_m; ana_n]).
Proof.
  apply (proj1 export_csv_header_and_rows [maria_m; ana_n] "salida.csv"
           (world_of (fun _ => None) [])).
  reflexivity.
Defined.

(** ** Presenters on empty results *)



(** ** The entry point *)

(** The [try] body returns 0 whenever it returns. *)
Lemma main_body_returns_zero (conn : Connection) (args : Args) (w w' : World)
    (code : Z) :
  main_body conn args w = (Ok code, w') -> code = 0%Z.
Proof.
  unfold main_body, bindIO, ret, lift, print_uno, print_tabla, print,
    write_all.
  repeat match goal with
         | |- context [match ?x with _ => _ end] => destruct x
         | |- context [if ?x then _ else _] => destruct x
         end;
    intros H; inversion H; reflexivity.
Qed.

(** Once the store is open, [main] returns 0 when the body completes and
    returns 1, after printing the warning line, when the body raises. *)
Lemma main_after_connect (args : Args) (w : World) (conn : Connection) :
  databases w (a_db args) = Some conn ->
  match main_body conn args w with
  | (Ok _, w') => main args w = (Ok 0%Z, w')
  | (Raise e, w') =>
      main args w
      = (Ok 1%Z,
         set_stdout w' (stdout w' ++ [print_chunk (warning ++ exn_message e)]))
  end.
Proof.
  intros Hdb. unfold main, bindIO, connect, try_except. rewrite Hdb.
  destruct (main_body conn args w) as [[code|e] w'] eqn:Hb.
  - now rewrite (main_body_returns_zero _ _ _ _ _ Hb).
  - reflexivity.
Qed.

(** When the store cannot be opened the exception of [connect] leaves
    [main], the world unchanged. *)
Lemma main_connect_error (args : Args) (w : World) :
  databases w (a_db args) = None ->
  main args w = (Raise (SqliteError connect_msg), w).
Proof. intros H. unfold main, bindIO, connect. now rewrite H. Qed.

(** C6 fails when the store cannot be opened: [connect] runs before the
    [try], so the exception leaves [main]; no exit code is returned and
    nothing is printed on standard output, although the process still
    ends with status 1. *)
Theorem main_connect_error_escapes :
  main args_actual world_sin_db
  = (Raise (SqliteError connect_msg), world_sin_db)
  /\ stdout (snd (main args_actual world_sin_db)) = []
  /\ fst (exit_status args_actual world_sin_db) = 1%Z.
Proof. repeat split. Qed.

(** X1.  With the store open, the commands [actual] and [historial] end with
    exit code 1 and the warning line when schema detection raises, be it
    for an unrecognized schema or for a store that cannot be read; and
    [actual] ends with exit code 0 after the detail view otherwise. *)
Theorem main_exit_code_after_connect (args : Args) (w : World)
    (conn : Connection) :
  databases w (a_db args) = Some conn ->
  (forall e,
      detect_schema conn = Raise e ->
      a_cmd args = Some "actual" \/ a_cmd args = Some "historial" ->
      main args w
      = (Ok 1%Z,
         set_stdout w (stdout w ++ [print_chunk (warning ++ exn_message e)])))
  /\ (forall sch,
         detect_schema conn = Ok sch ->
         a_cmd args = Some "actual" ->
         exists row,
           fetch_ultimo conn (a_adulto args) = Ok row
           /\ main args w
              = (Ok 0%Z, set_stdout w (stdout w ++ print_uno_out row))).
Proof.
  intros Hdb. pose proof (main_after_connect args w conn Hdb) as Hm. split.
  - intros e He Hc. unfold main_body in Hm.
    destruct Hc as [Hc|Hc]; rewrite Hc in Hm; simpl in Hm;
      unfold bindIO, lift in Hm.
    + now rewrite (fetch_ultimo_raises _ _ _ He) in Hm.
    + now rewrite (fetch_historial_raises _ _ _ _ _ _ He) in Hm.
  - intros sch Hs Hc. destruct (detect_schema_Ok_Conn _ _ Hs) as [st ->].
    unfold main_body in Hm. rewrite Hc in Hm. simpl in Hm.
    unfold bindIO, lift in Hm.
    rewrite (fetch_ultimo_spec _ _ _ Hs) in Hm |- *.
    eexists. split; [reflexivity|]. exact Hm.
Qed.

Lemma main_exit_code_after_connect_witness :
  main (mkArgs "emociones.db" (Some "historial") "Maria" None None None None)
       (world_of (fun _ => Some (Conn store_vacio)) [])
  = (Ok 1%Z,
     set_stdout (world_of (fun _ => Some (Conn store_vacio)) [])
       [print_chunk (warning ++ no_schema_msg)]).
Proof.
  apply (proj1 (main_exit_code_after_connect
                  (mkArgs "emociones.db" (Some "historial") "Maria"
                          None None None None)
                  (world_of (fun _ => Some (Conn store_vacio)) [])
                  (Conn store_vacio) eq_refl)
               (RuntimeError no_schema_msg) eq_refl).
  now right.
Defined.

(** ** The model on the examples of the specification *)

Example strip_example : Text.strip "  Maria	 " = "Maria".
Proof. reflexivity. Qed.

Example upper_example : normal_turno " m " = "M".
Proof. reflexivity. Qed.

Example upper_beyond_ascii : Text.upper "straße ñandú" = "STRASSE ÑANDÚ".
Proof. reflexivity. Qed.

Example strip_no_break_space :
  Text.strip (Text.of_bytes [194; 160] ++ "Ana María" ++ Text.of_bytes [9; 10])
  = "Ana María".
Proof. reflexivity. Qed.

Example tabla_header_text :
  tabla_header
  = " ID Adulto     Fecha      Trn Emoción        Est  Comentario".
Proof. reflexivity. Qed.

(** Widths and cuts count characters, not bytes. *)
Example tabla_line_accents :
  tabla_line (mkRow 7 "María José Pérez" "2024-01-05" "M"
                    "melancólica profunda" "ok" None)
  = "  7 María José 2024-01-05 M   melancólica pr ok   None".
Proof. reflexivity. Qed.

Example tabla_line_short :
  tabla_line (mkRow 12 "Íñigo" "2024-01-05" "T" "alegría" "ok" (Some "bien"))
  = " 12 Íñigo      2024-01-05 T   alegría        ok   bien".
Proof. reflexivity. Qed.

Example historial_maria_turno_m :
  fetch_historial (Conn store_maria) "Maria" None None (Some "M")
  = Ok [maria_m].
Proof. reflexivity. Qed.

Example historial_maria_all :
  fetch_historial (Conn store_maria) " Maria" None None None
  = Ok [maria_t; maria_m].
Proof. reflexivity. Qed.

Example historial_dos_hasta :
  fetch_historial (Conn store_dos) "Maria" None (Some "2024-01-01") None
  = Ok [maria_m].
Proof. reflexivity. Qed.

Example ultimo_dos : fetch_ultimo (Conn store_dos) "Maria" = Ok (Some maria_t).
Proof. reflexivity. Qed.

Example ultimo_unusable :
  fetch_ultimo (Unusable "file is not a database") "Maria"
  = Raise (SqliteError "file is not a database").
Proof. reflexivity. Qed.

Example menu_session :
  run_menu_loop (Conn store_maria) ["9"; "1"; "Pedro"; "0"; "sobra"] []
  = (Ok tt, ["sobra"],
     menu_banner ++ [print_chunk "Opción inválida."]
     ++ menu_banner ++ [p_adulto] ++ print_uno_out None
     ++ menu_banner).
Proof. reflexivity. Qed.

Example menu_end_of_input :
  fst (fst (run_menu_loop (Conn store_maria) ["2"; "Maria"] []))
  = Raise (EOFError eof_msg).
Proof. reflexivity. Qed.

(** * Further properties *)

(** ** What the queries return *)

(** X2.  With any combination of the three filters, the history of a
    store whose schema is detected holds exactly the records of the
    trimmed subject whose date is not before a non-empty [desde], not
    after a non-empty [hasta], and whose shift is the uppercase of the
    trimmed non-empty [turno]; it lists them newest first by date, shift
    and id.  On the example stores: the three filters together keep the
    afternoon row of Maria, a bound that equals the date keeps the row, a
    shift that no row of the range has leaves nothing, and a shift written
    in lowercase with a letter outside ASCII finds its row. *)
Theorem fetch_historial_selected :
  (forall (st : Store) (sch : Schema) (subject : string)
          (desde hasta turno_arg : option string),
      detect_schema (Conn st) = Ok sch ->
      exists rows,
        fetch_historial (Conn st) subject desde hasta turno_arg = Ok rows
        /\ Permutation rows
             (filter (selected subject desde hasta turno_arg)
                     (records st sch))
        /\ newest_first rows
        /\ (forall r, In r rows <->
                      In r (records st sch)
                      /\ adulto r = Text.strip subject
                      /\ from_date desde r = true
                      /\ to_date hasta r = true
                      /\ of_turno turno_arg r = true))
  /\ fetch_historial (Conn store_dos) " Maria" (Some "2024-01-01")
                     (Some "2024-01-31") (Some "t") = Ok [maria_t]
  /\ fetch_historial (Conn store_una) "Maria" (Some "2024-01-02")
                     (Some "2024-01-02") (Some "T") = Ok [maria_t]
  /\ fetch_historial (Conn store_una) "Maria" (Some "2024-01-02") None
                     (Some "m") = Ok []
  /\ fetch_historial (Conn store_una) "Maria" None (Some "2024-01-01")
                     (Some " m ") = Ok [maria_m]
  /\ fetch_historial (Conn store_rosa) "Rosa" None None (Some " mañana ")
     = Ok [rosa_m]
  /\ fetch_historial (Conn store_una) "maria" None None None = Ok [].
Proof.
  split; [|repeat split; reflexivity].
  intros st sch subject desde hasta turno_arg Hs.
  rewrite (fetch_historial_spec _ _ _ _ _ _ Hs).
  eexists. split; [reflexivity|].
  pose proof (order_by_desc_perm _ row_key
                (filter (selected subject desde hasta turno_arg)
                        (records st sch))) as Hp.
  split; [exact Hp|].
  split; [apply descending_newest_first, sorted_rows_descending|].
  intros r. split.
  - intros Hr. apply (Permutation_in _ Hp) in Hr.
    apply filter_In in Hr as [Hin Hsel]. unfold selected in Hsel.
    repeat (apply andb_true_iff in Hsel as [Hsel ?]).
    unfold of_subject in Hsel. apply String.eqb_eq in Hsel. auto.
  - intros (Hin & Ha & Hd & Hh & Ht).
    apply (Permutation_in _ (Permutation_sym Hp)).
    apply filter_In. split; [exact Hin|]. unfold selected, of_subject.
    rewrite Hd, Hh, Ht. apply String.eqb_eq in Ha. now rewrite Ha.
Qed.

Lemma fetch_historial_selected_witness :
  exists rows,
    fetch_historial (Conn store_dos) "Maria" (Some "2024-01-01")
                    (Some "2024-01-31") (Some "t") = Ok rows
    /\ Permutation rows
         (filter (selected "Maria" (Some "2024-01-01") (Some "2024-01-31")
                           (Some "t"))
                 (records store_dos dos_tablas))
    /\ newest_first rows
    /\ (forall r, In r rows <->
                  In r (records store_dos dos_tablas)
                  /\ adulto r = Text.strip "Maria"
                  /\ from_date (Some "2024-01-01") r = true
                  /\ to_date (Some "2024-01-31") r = true
                  /\ of_turno (Some "t") r = true).
Proof.
  apply (proj1 fetch_historial_selected store_dos dos_tablas "Maria"
           (Some "2024-01-01") (Some "2024-01-31") (Some "t")).
  reflexivity.
Defined.

(** X4.  The two layouts are interchangeable: stores that hold the same
    logical records, in whatever physical form and table order, no two
    records sharing date, shift and id, give the same history and the
    same latest row for every request. *)
Theorem queries_schema_independent (st1 st2 : Store) (sch1 sch2 : Schema) :
  detect_schema (Conn st1) = Ok sch1 ->
  detect_schema (Conn st2) = Ok sch2 ->
  Permutation (records st1 sch1) (records st2 sch2) ->
  keyed (records st1 sch1) ->
  forall subject desde hasta turno_arg,
    fetch_historial (Conn st1) subject desde hasta turno_arg
    = fetch_historial (Conn st2) subject desde hasta turno_arg
    /\ fetch_ultimo (Conn st1) subject = fetch_ultimo (Conn st2) subject.
Proof.
  intros H1 H2 Hp Hk subject desde hasta turno_arg.
  rewrite (fetch_historial_spec _ _ _ _ _ _ H1),
    (fetch_historial_spec _ _ _ _ _ _ H2),
    (fetch_ultimo_spec _ _ _ H1), (fetch_ultimo_spec _ _ _ H2).
  assert (Hf : forall p : Row -> bool,
             Sql.order_by_desc row_key (filter p (records st1 sch1))
             = Sql.order_by_desc row_key (filter p (records st2 sch2))).
  { intros p. apply order_by_desc_rows_unique; [now apply filter_perm|].
    apply (keyed_incl (records st1 sch1)); [|exact Hk].
    intros x Hx. now apply filter_In in Hx. }
  unfold candidates. now rewrite !Hf.
Qed.

Lemma queries_schema_independent_witness :
  fetch_historial (Conn store_dos) "Maria" None (Some "2024-01-01") None
  = fetch_historial (Conn store_maria) "Maria" None (Some "2024-01-01") None
  /\ fetch_ultimo (Conn store_dos) "Maria"
     = fetch_ultimo (Conn store_maria) "Maria".
Proof.
  apply (queries_schema_independent store_dos store_maria
           dos_tablas una_tabla eq_refl eq_refl).
  - apply Permutation_refl.
  - intros a b [<-|[<-|[]]] [<-|[<-|[]]]; simpl; intros;
      try reflexivity; discriminate.
Defined.

(** ** Trimming the subject *)

(** X5.  Blanks around the subject do not matter: each query gives for a
    subject what it gives for the subject already trimmed, so a caller
    that trims first, as the menu and the quick mode do, changes
    nothing. *)
Theorem queries_ignore_subject_blanks (conn : Connection) (subject : string)
    (desde hasta turno_arg : option string) :
  fetch_historial conn (Text.strip subject) desde hasta turno_arg
  = fetch_historial conn subject desde hasta turno_arg
  /\ fetch_ultimo conn (Text.strip subject) = fetch_ultimo conn subject.
Proof.
  unfold fetch_historial, fetch_ultimo. now rewrite strip_idem.
Qed.

(** ** The join of the two-table form *)

Lemma filter_none (A : Type) (p : A -> bool) (l : list A) :
  (forall x, In x l -> p x = false) -> filter p l = [].
Proof.
  induction l as [|x l IH]; simpl; [reflexivity|]. intros H.
  rewrite (H x (or_introl eq_refl)). apply IH. intros y Hy. apply H. now right.
Qed.

(** X6.  In the two-table form a check-in is visible only through the
    join: every row a history returns is a fact row together with an
    emotion row of the same emotion id; and when no fact row has its
    emotion in [emociones], the history is empty and there is no latest
    row, whatever the fact table holds. *)
Theorem two_table_rows_need_their_emotion (st : Store)
    (rs : list RegistroEmocional) (es : list Emocion) (subject : string)
    (desde hasta turno_arg : option string) :
  registro_emocional st = Some rs ->
  emociones st = Some es ->
  (forall rows row,
      fetch_historial (Conn st) subject desde hasta turno_arg = Ok rows ->
      In row rows ->
      exists r e,
        In r rs /\ In e es /\ e_id e = r_emocion_id r
        /\ row = mkRow (r_id r) (r_adulto_id r) (r_fecha r) (r_turno r)
                       (e_nombre e) (r_estado r) (r_comentario r))
  /\ ((forall r e, In r rs -> In e es -> e_id e <> r_emocion_id r) ->
      fetch_historial (Conn st) subject desde hasta turno_arg = Ok []
      /\ fetch_ultimo (Conn st) subject = Ok None).
Proof.
  intros Hr He.
  assert (Hs : detect_schema (Conn st) = Ok dos_tablas).
  { rewrite detect_schema_Conn. unfold two_table_form. now rewrite Hr, He. }
  rewrite (fetch_historial_spec _ _ _ _ _ _ Hs), (fetch_ultimo_spec _ _ _ Hs).
  unfold candidates, records. rewrite Hr, He. simpl table. split.
  - intros rows row Hrows Hin. injection Hrows as <-.
    apply (Permutation_in _ (order_by_desc_perm _ row_key _)) in Hin.
    apply filter_In in Hin as [Hin _].
    apply in_map_iff in Hin as ([r e] & <- & Hin).
    apply filter_In in Hin as [Hin Hid]. apply in_prod_iff in Hin as [H1 H2].
    apply Z.eqb_eq in Hid. simpl in Hid. exists r, e. auto.
  - intros Hno.
    assert (Hj : filter (fun re : RegistroEmocional * Emocion =>
                           Z.eqb (r_emocion_id (fst re)) (e_id (snd re)))
                        (list_prod rs es) = []).
    { apply filter_none. intros [r e] Hin.
      apply in_prod_iff in Hin as [H1 H2]. simpl.
      apply Z.eqb_neq. intros Hid. now apply (Hno r e H1 H2). }
    rewrite Hj. split; reflexivity.
Qed.

Lemma two_table_rows_need_their_emotion_witness :
  fetch_historial
    (Conn (mkStore (registro_emocional store_dos)
                   (Some [mkEmocion 30 "sereno"]) None))
    "Maria" None None None = Ok []
  /\ fetch_ultimo
       (Conn (mkStore (registro_emocional store_dos)
                      (Some [mkEmocion 30 "sereno"]) None))
       "Maria" = Ok None.
Proof.
  apply (proj2 (two_table_rows_need_their_emotion
                  (mkStore (registro_emocional store_dos)
                           (Some [mkEmocion 30 "sereno"]) None)
                  _ _ "Maria" None None None eq_refl eq_refl)).
  intros r e [<-|[<-|[]]] [<-|[]]; discriminate.
Defined.

(** ** Filters narrow the history *)

(** X7.  Every history is the history without date or shift filter with
    rows taken out: it holds the rows of that history that pass the date
    bounds and the shift filter in force, each as often, and lists them in
    the order of the unfiltered history when no two of them share date,
    shift and id; and it raises what the unfiltered history raises.  On
    the one-table example, the history of Maria is her afternoon row and
    then her morning row; a lower bound keeps the first, the shift [m]
    the second. *)
Theorem fetch_historial_restricts :
  (forall (conn : Connection) (subject : string)
          (desde hasta turno_arg : option string),
      up_to_ties
        (fetch_historial conn subject desde hasta turno_arg)
        (rows <- fetch_historial conn subject None None None ;;
         Ok (filter (fun r => from_date desde r && to_date hasta r
                              && of_turno turno_arg r) rows)))
  /\ fetch_historial (Conn store_una) "Maria" None None None
     = Ok [maria_t; maria_m]
  /\ fetch_historial (Conn store_una) "Maria" (Some "2024-01-02") None None
     = Ok [maria_t]
  /\ fetch_historial (Conn store_una) "Maria" None None (Some "m")
     = Ok [maria_m].
Proof.
  split; [|repeat split; reflexivity].
  intros conn subject desde hasta turno_arg. apply up_to_ties_eq.
  destruct (detect_schema conn) as [sch|e] eqn:Hs.
  - destruct (detect_schema_Ok_Conn _ _ Hs) as [st ->].
    rewrite !(fetch_historial_spec _ _ _ _ _ _ Hs). simpl bind.
    rewrite filter_order_by_desc, <- filter_andb.
    do 2 f_equal. apply filter_ext. intros r. unfold selected.
    unfold from_date at 2, to_date at 2, of_turno at 2. simpl.
    now rewrite !andb_true_r, !andb_assoc.
  - now rewrite !(fetch_historial_raises _ _ _ _ _ _ Hs).
Qed.

Lemma string_leb_trans (a b c : string) :
  String.leb a b = true -> String.leb b c = true -> String.leb a c = true.
Proof.
  unfold String.leb.
  destruct (String.compare a b) eqn:Eab; try discriminate;
    destruct (String.compare b c) eqn:Ebc; try discriminate; intros _ _.
  - apply string_compare_eq in Eab, Ebc. subst. now rewrite string_compare_refl.
  - apply string_compare_eq in Eab. subst. now rewrite Ebc.
  - apply string_compare_eq in Ebc. subst. now rewrite Eab.
  - now rewrite (string_compare_lt_trans _ _ _ Eab Ebc).
Qed.

(** X8.  A date range given backwards selects nothing: when both bounds
    are in force and [hasta] sorts before [desde], the history is empty,
    not an error. *)
Theorem fetch_historial_inverted_range (st : Store) (sch : Schema)
    (subject desde hasta : string) (turno_arg : option string) :
  detect_schema (Conn st) = Ok sch ->
  desde <> EmptyString ->
  hasta <> EmptyString ->
  String.ltb hasta desde = true ->
  fetch_historial (Conn st) subject (Some desde) (Some hasta) turno_arg
  = Ok [].
Proof.
  intros Hs Hd Hh Hlt. rewrite (fetch_historial_spec _ _ _ _ _ _ Hs).
  rewrite filter_none; [reflexivity|]. intros r _.
  unfold selected. rewrite from_date_code, to_date_code.
  simpl Text.truthy. simpl arg.
  rewrite (nonempty_true _ Hd), (nonempty_true _ Hh).
  unfold Text.ge, Text.le.
  destruct (String.leb desde (fecha r)) eqn:E1;
    [|now rewrite andb_false_r].
  destruct (String.leb (fecha r) hasta) eqn:E2;
    [|now rewrite andb_false_r].
  exfalso. pose proof (string_leb_trans _ _ _ E1 E2) as Ht.
  unfold String.ltb in Hlt. unfold String.leb in Ht.
  rewrite String.compare_antisym in Ht.
  destruct (String.compare hasta desde); discriminate.
Qed.

Lemma fetch_historial_inverted_range_witness :
  fetch_historial (Conn store_una) "Maria" (Some "2024-01-02")
                  (Some "2024-01-01") None
  = Ok [].
Proof.
  apply (fetch_historial_inverted_range store_una una_tabla "Maria"
           "2024-01-02" "2024-01-01" None eq_refl);
    [discriminate | discriminate | reflexivity].
Defined.

(** ** No record is listed twice *)

Lemma filter_keeps_distinct (A B : Type) (image : A -> B)
    (keep : A -> bool) :
  forall rows : list A,
    NoDup (map image rows) -> NoDup (map image (filter keep rows)).
Proof.
  intros rows. induction rows as [|x rows IH]; simpl; intros H; [exact H|].
  apply NoDup_cons_iff in H as [Hx Hl]. destruct (keep x); simpl; [|auto].
  constructor; [|auto]. intros Hin. apply Hx.
  apply in_map_iff in Hin as (y & Hy & Hin). apply filter_In in Hin as [Hin _].
  rewrite <- Hy. now apply in_map.
Qed.

(** The join yields at most one row per fact row when emotion ids are
    distinct. *)
Lemma join_ids_NoDup (rs : list RegistroEmocional) (es : list Emocion) :
  NoDup (map r_id rs) -> NoDup (map e_id es) ->
  NoDup (map id (map Sql.project_dos (Sql.join rs es))).
Proof.
  intros Hrs Hes.
  assert (Hone : forall k,
             (List.length (filter (fun e => Z.eqb (e_id e) k) es) <= 1)%nat).
  { intros k. induction es as [|e es IH]; simpl; [lia|].
    apply NoDup_cons_iff in Hes as [He Hes].
    destruct (Z.eqb (e_id e) k) eqn:Ek; [|auto].
    apply Z.eqb_eq in Ek. simpl.
    rewrite filter_none; [simpl; lia|].
    intros e' He'. apply Z.eqb_neq. intros Heq. apply He.
    rewrite Ek, <- Heq. now apply in_map. }
  induction rs as [|r rs IH]; simpl; [constructor|].
  apply NoDup_cons_iff in Hrs as [Hr Hrs].
  unfold Sql.join in *. simpl. rewrite !map_app.
  assert (Hin : forall i,
             In i (map id (map Sql.project_dos
                     (flat_map
                        (fun r0 =>
                           map (fun e => (r0, e))
                               (filter (fun e => Z.eqb (e_id e) (r_emocion_id r0))
                                       es)) rs))) ->
             In i (map r_id rs)).
  { intros i Hi. apply in_map_iff in Hi as (row & <- & Hi).
    apply in_map_iff in Hi as ([r0 e0] & <- & Hi).
    apply in_flat_map in Hi as (r1 & Hr1 & Hi).
    apply in_map_iff in Hi as (e1 & Heq & _). injection Heq as <- <-.
    simpl. now apply in_map. }
  specialize (Hone (r_emocion_id r)).
  destruct (filter (fun e => Z.eqb (e_id e) (r_emocion_id r)) es)
    as [|e [|e' l]]; simpl in *; [auto | | lia].
  constructor; [|auto]. intros Hi. apply Hr. now apply Hin.
Qed.

(** X9.  When the ids of the records are distinct, and in the two-table
    form the ids of the emotions too, no history lists a record twice. *)
Theorem fetch_historial_lists_once (st : Store) (sch : Schema)
    (subject : string) (desde hasta turno_arg : option string)
    (rows : list Row) :
  detect_schema (Conn st) = Ok sch ->
  match sch with
  | dos_tablas =>
      NoDup (map r_id (table (registro_emocional st)))
      /\ NoDup (map e_id (table (emociones st)))
  | una_tabla => NoDup (map id (table (registros st)))
  end ->
  fetch_historial (Conn st) subject desde hasta turno_arg = Ok rows ->
  NoDup (map id rows).
Proof.
  intros Hs Hn. rewrite (fetch_historial_spec _ _ _ _ _ _ Hs).
  intros H. injection H as <-.
  eapply Permutation_NoDup.
  - apply Permutation_map, Permutation_sym, order_by_desc_perm.
  - apply filter_keeps_distinct. destruct sch; simpl.
    + destruct Hn as [H1 H2]. rewrite <- join_as_product.
      rewrite (map_ext record_of Sql.project_dos)
        by (intros re; now rewrite project_dos_record).
      now apply join_ids_NoDup.
    + exact Hn.
Qed.

Lemma fetch_historial_lists_once_witness :
  NoDup (map id [maria_t; maria_m]).
Proof.
  apply (fetch_historial_lists_once store_dos dos_tablas "Maria"
           None None None [maria_t; maria_m] eq_refl).
  - split; repeat constructor; simpl; intuition discriminate.
  - reflexivity.
Defined.

(** ** Which records the export tells apart *)

Lemma str_int_inj (a b : Z) : str_int a = str_int b -> a = b.
Proof.
  unfold str_int. intros H.
  assert (Hn : forall z, Z.to_int z <> Decimal.Pos Decimal.Nil
                         /\ Z.to_int z <> Decimal.Neg Decimal.Nil).
  { intros [|p|p]; simpl; split; try discriminate;
      intros E; injection E as E; now apply DecimalPos.Unsigned.to_uint_nonnil in E. }
  apply (f_equal DecimalString.NilZero.int_of_string) in H.
  rewrite !DecimalString.NilZero.isi in H by apply Hn.
  injection H as H. now apply DecimalZ.to_int_inj.
Qed.

Lemma csv_fields_same (r r' : Row) :
  csv_fields r = csv_fields r' <-> same_export r r'.
Proof.
  unfold csv_fields, same_export. split.
  - intros H. injection H as Hi Ha Hf Ht He Hs Hc.
    apply str_int_inj in Hi. auto 10.
  - intros (-> & -> & -> & -> & -> & -> & ->). reflexivity.
Qed.

(** X11.  The exported text determines the records up to one thing: two
    lists of records give the same file exactly when they have the same
    length and agree, record by record, on every field, a NULL comment
    counting as an empty one. *)
Theorem csv_content_same_iff (rows rows' : list Row) :
  csv_content rows = csv_content rows' <-> Forall2 same_export rows rows'.
Proof.
  split.
  - intros H. apply (f_equal Csv.read) in H.
    rewrite !read_csv_content in H. injection H as H.
    revert rows' H. induction rows as [|r rows IH]; intros [|r' rows'] H;
      simpl in H; try discriminate; constructor.
    + apply csv_fields_same. congruence.
    + apply IH. congruence.
  - intros H. rewrite !csv_content_cat. do 2 f_equal.
    induction H as [|r r' rows rows' Hr _ IH]; simpl; [reflexivity|].
    apply csv_fields_same in Hr. now rewrite Hr, IH.
Qed.

Lemma csv_content_same_iff_witness :
  csv_content [maria_m]
  = csv_content [mkRow 1 "Maria" "2024-01-01" "M" "alegre" "ok"
                       (Some EmptyString)].
Proof.
  apply (proj2 (csv_content_same_iff [maria_m]
                  [mkRow 1 "Maria" "2024-01-01" "M" "alegre" "ok"
                         (Some EmptyString)])).
  repeat constructor.
Defined.

(** ** The commands of [main] *)

(** X12.  With the store open and its schema detected, [historial]
    either prints the table of the history and writes no file, or, with
    [--csv], writes the export of the history to that path and prints only
    the confirmation line with the resolved path; either way it reads
    nothing and returns 0.  When the CSV file cannot be opened it prints
    the warning line, writes nothing and returns 1. *)
Theorem main_historial_outcome (args : Args) (w : World) (st : Store)
    (sch : Schema) :
  databases w (a_db args) = Some (Conn st) ->
  detect_schema (Conn st) = Ok sch ->
  a_cmd args = Some "historial" ->
  exists rows,
    fetch_historial (Conn st) (a_adulto args) (a_desde args) (a_hasta args)
                    (a_turno args) = Ok rows
    /\ match a_csv args with
       | None =>
           main args w
           = (Ok 0%Z, set_stdout w (stdout w ++ print_tabla_out rows))
       | Some path =>
           match open_error w path with
           | None =>
               main args w
               = (Ok 0%Z,
                  set_stdout
                    (set_files w (upsert path (csv_content rows) (files w)))
                    (stdout w ++ [print_chunk (csv_ok ++ resolve w path)]))
           | Some msg =>
               main args w
               = (Ok 1%Z,
                  set_stdout w (stdout w ++ [print_chunk (warning ++ msg)]))
           end
       end.
Proof.
  intros Hdb Hs Hc. pose proof (main_after_connect args w _ Hdb) as Hm.
  unfold main_body in Hm. rewrite Hc in Hm. simpl in Hm.
  unfold bindIO, lift in Hm.
  rewrite (fetch_historial_spec _ _ _ _ _ _ Hs) in Hm |- *.
  eexists. split; [reflexivity|].
  destruct (a_csv args) as [path|]; [|exact Hm].
  unfold export_csv in Hm. destruct (open_error w path); exact Hm.
Qed.

Lemma main_historial_outcome_witness :
  exists rows,
    fetch_historial (Conn store_maria) "Maria" None None (Some "M") = Ok rows
    /\ main (mkArgs "emociones.db" (Some "historial") "Maria" None None
                    (Some "M") (Some "m.csv"))
            (world_of (fun _ => Some (Conn store_maria)) [])
       = (Ok 0%Z,
          set_stdout
            (set_files (world_of (fun _ => Some (Conn store_maria)) [])
                       (upsert "m.csv" (csv_content rows) []))
            [print_chunk (csv_ok ++ "m.csv")]).
Proof.
  apply (main_historial_outcome
           (mkArgs "emociones.db" (Some "historial") "Maria" None None
                   (Some "M") (Some "m.csv"))
           (world_of (fun _ => Some (Conn store_maria)) [])
           store_maria una_tabla eq_refl eq_refl eq_refl).
Defined.

(** X13.  Without a subcommand [main] prompts once for the subject and
    reads one line: with no line to read it prints the warning for the end
    of input and returns 1; otherwise it shows the latest row of that
    subject (or the no-records message) and returns 0, or prints the
    warning and returns 1 when the query raises; the lines after the first
    stay unread. *)
Theorem main_quick_mode (args : Args) (w : World) (conn : Connection) :
  databases w (a_db args) = Some conn ->
  a_cmd args = None ->
  match stdin w with
  | [] =>
      main args w
      = (Ok 1%Z,
         set_stdout w
           (stdout w ++ [p_adulto; print_chunk (warning ++ eof_msg)]))
  | l :: rest =>
      match fetch_ultimo conn l with
      | Ok row =>
          main args w
          = (Ok 0%Z,
             set_stdin (set_stdout w (stdout w ++ p_adulto :: print_uno_out row))
                       rest)
      | Raise e =>
          main args w
          = (Ok 1%Z,
             set_stdin
               (set_stdout w
                  (stdout w
                   ++ [p_adulto; print_chunk (warning ++ exn_message e)]))
               rest)
      end
  end.
Proof.
  intros Hdb Hc. pose proof (main_after_connect args w _ Hdb) as Hm.
  unfold main_body in Hm. rewrite Hc in Hm.
  unfold bindIO, lift, input in Hm.
  destruct (stdin w) as [|l rest] eqn:Hin.
  - rewrite Hm. unfold set_stdout. simpl. now rewrite <- app_assoc.
  - assert (Hl : fetch_ultimo conn (Text.strip l) = fetch_ultimo conn l).
    { unfold fetch_ultimo. now rewrite strip_idem. }
    rewrite Hl in Hm. destruct (fetch_ultimo conn l) as [row|e].
    + rewrite Hm. unfold print_uno, write_all, ret, set_stdout, set_stdin.
      simpl. now rewrite <- app_assoc.
    + rewrite Hm. unfold set_stdout, set_stdin. simpl.
      now rewrite <- app_assoc.
Qed.

Lemma main_quick_mode_witness :
  main (mkArgs "emociones.db" None EmptyString None None None None)
       (world_of (fun _ => Some (Conn store_maria)) [])
  = (Ok 1%Z,
     set_stdout (world_of (fun _ => Some (Conn store_maria)) [])
                [p_adulto; print_chunk (warning ++ eof_msg)]).
Proof.
  apply (main_quick_mode
           (mkArgs "emociones.db" None EmptyString None None None None)
           (world_of (fun _ => Some (Conn store_maria)) [])
           (Conn store_maria) eq_refl eq_refl).
Defined.

(** ** The menu *)

Lemma fetch_ultimo_Raise_inv (conn : Connection) (a : string) (e : Exn) :
  fetch_ultimo conn a = Raise e -> detect_schema conn = Raise e.
Proof.
  destruct (detect_schema conn) as [sch|e'] eqn:Hs.
  - destruct (detect_schema_Ok_Conn _ _ Hs) as [st ->].
    now rewrite (fetch_ultimo_spec _ _ _ Hs).
  - rewrite (fetch_ultimo_raises _ _ _ Hs). now intros [= ->].
Qed.

Lemma fetch_historial_Raise_inv (conn : Connection) (a : string)
    (d h t : option string) (e : Exn) :
  fetch_historial conn a d h t = Raise e -> detect_schema conn = Raise e.
Proof.
  destruct (detect_schema conn) as [sch|e'] eqn:Hs.
  - destruct (detect_schema_Ok_Conn _ _ Hs) as [st ->].
    now rewrite (fetch_historial_spec _ _ _ _ _ _ Hs).
  - rewrite (fetch_historial_raises _ _ _ _ _ _ Hs). now intros [= ->].
Qed.

(** Closes a case of the loop that ends at once. *)
Ltac menu_stop used :=
  split;
    [first [ exists (@nil string); rewrite app_nil_r; reflexivity
           | rewrite <- ?app_assoc; eexists; reflexivity ]|];
  split; [exists used; rewrite ?app_nil_r; reflexivity|].

(** Closes a case of the loop that goes round again, from the induction
    hypothesis at the lines left. *)
Ltac menu_again IH head :=
  match goal with
  | |- context [run_menu_loop ?conn ?rest ?out] =>
      let H := fresh "H" in
      assert (H := IH rest ltac:(simpl in *; lia) out);
      destruct (run_menu_loop conn rest out) as [[?r ?rest'] ?out'];
      destruct H as ((?more & ->) & (?used & ?Hu) & ?Hr);
      split; [rewrite <- ?app_assoc; eexists; reflexivity|];
      split; [eexists (head ++ _); simpl; rewrite Hu; reflexivity|];
      match goal with
      | |- match ?r with _ => _ end =>
          destruct r as [?|?e];
          [ destruct Hr as (?used0 & ?l0 & ?Hl0 & ?H0);
            exists (head ++ used0), l0; split;
            [simpl; rewrite Hl0; reflexivity | exact H0]
          | exact Hr ]
      end
  end.

Lemma run_menu_loop_ends_aux (conn : Connection) (n : nat) :
  forall lines, (List.length lines <= n)%nat ->
  forall out,
    let '(r, rest, out') := run_menu_loop conn lines out in
    (exists more, out' = out ++ menu_banner ++ more)
    /\ (exists used, lines = used ++ rest)
    /\ match r with
       | Ok _ =>
           exists used l0,
             lines = used ++ l0 :: rest /\ Text.strip l0 = "0"
       | Raise e =>
           (e = EOFError eof_msg /\ rest = [])
           \/ detect_schema conn = Raise e
       end.
Proof.
  remember menu_banner as banner eqn:Hb.
  induction n as [|n IH]; intros lines Hlen out.
  - destruct lines; [|simpl in Hlen; lia]. simpl. rewrite <- Hb.
    menu_stop (@nil string). now left.
  - destruct lines as [|l lines].
    { simpl. rewrite <- Hb. menu_stop (@nil string). now left. }
    simpl run_menu_loop. rewrite <- Hb.
    destruct (Text.strip l =? "0") eqn:E0.
    { menu_stop [l]. exists [], l. split; [reflexivity|].
      now apply String.eqb_eq. }
    destruct (Text.strip l =? "1") eqn:E1.
    { destruct lines as [|a lines]; [menu_stop [l]; now left|].
      destruct (fetch_ultimo conn (Text.strip a)) as [row|e] eqn:Ef.
      - menu_again IH [l; a].
      - menu_stop [l; a]. right. now apply fetch_ultimo_Raise_inv in Ef. }
    destruct (Text.strip l =? "2") eqn:E2.
    { destruct lines as [|a lines]; [menu_stop [l]; now left|].
      destruct lines as [|d lines]; [menu_stop [l; a]; now left|].
      destruct lines as [|h lines]; [menu_stop [l; a; d]; now left|].
      destruct lines as [|t lines]; [menu_stop [l; a; d; h]; now left|].
      destruct (fetch_historial conn _ _ _ _) as [rows|e] eqn:Ef.
      - menu_again IH [l; a; d; h; t].
      - menu_stop [l; a; d; h; t]. right.
        now apply fetch_historial_Raise_inv in Ef. }
    menu_again IH [l].
Qed.

(** X14.  The menu loop keeps what was printed and prints the menu at
    least once more; it reads the lines in order and leaves the others
    untouched; it ends well only on reading option 0, and otherwise ends
    by an exception that is either the end of input, with no line left, or
    the exception schema detection raises on this connection. *)
Theorem run_menu_loop_ends (conn : Connection) (lines out : list string) :
  let '(r, rest, out') := run_menu_loop conn lines out in
  (exists more, out' = out ++ menu_banner ++ more)
  /\ (exists used, lines = used ++ rest)
  /\ match r with
     | Ok _ =>
         exists used l0, lines = used ++ l0 :: rest /\ Text.strip l0 = "0"
     | Raise e =>
         (e = EOFError eof_msg /\ rest = [])
         \/ detect_schema conn = Raise e
     end.
Proof. apply (run_menu_loop_ends_aux conn (List.length lines)). lia. Qed.

(** X15.  In menu mode, with the store open, [main] always returns: 0
    when the session ended on option 0, the lines after it unread; 1,
    after the warning line, when standard input ran out or when a query
    met the exception of schema detection.  What had been printed stays,
    followed by the menu. *)
Theorem main_menu_outcome (args : Args) (w : World) (conn : Connection) :
  databases w (a_db args) = Some conn ->
  a_cmd args = Some "menu" ->
  exists code w',
    main args w = (Ok code, w')
    /\ (exists more, stdout w' = stdout w ++ menu_banner ++ more)
    /\ (exists used, stdin w = used ++ stdin w')
    /\ ((code = 0%Z
         /\ exists used l0,
             stdin w = used ++ l0 :: stdin w' /\ Text.strip l0 = "0")
        \/ (code = 1%Z
            /\ exists e more,
                stdout w'
                = stdout w ++ more ++ [print_chunk (warning ++ exn_message e)]
                /\ ((e = EOFError eof_msg /\ stdin w' = [])
                    \/ detect_schema conn = Raise e))).
Proof.
  intros Hdb Hc. pose proof (main_after_connect args w _ Hdb) as Hm.
  unfold main_body in Hm. rewrite Hc in Hm. simpl in Hm.
  unfold bindIO, run_menu in Hm.
  pose proof (run_menu_loop_ends_aux conn _ (stdin w) (le_n _) (stdout w))
    as Hl.
  destruct (run_menu_loop conn (stdin w) (stdout w)) as [[r rest] out].
  destruct Hl as ((more & ->) & Hused & Hr).
  destruct r as [[]|e]; simpl in Hm; rewrite Hm; do 2 eexists;
    (split; [reflexivity|]); simpl.
  - split; [now exists more|]. split; [exact Hused|]. left. now split.
  - split; [rewrite <- !app_assoc; eexists; reflexivity|].
    split; [exact Hused|]. right. split; [reflexivity|].
    exists e, (menu_banner ++ more). split; [now rewrite <- !app_assoc|].
    exact Hr.
Qed.

Lemma main_menu_outcome_witness :
  exists code w',
    main (mkArgs "emociones.db" (Some "menu") EmptyString None None None None)
         (world_of (fun _ => Some (Conn store_maria)) ["1"; "Maria"; "0"])
    = (Ok code, w')
    /\ (exists more, stdout w' = [] ++ menu_banner ++ more)
    /\ (exists used, ["1"; "Maria"; "0"] = used ++ stdin w')
    /\ ((code = 0%Z
         /\ exists used l0,
             ["1"; "Maria"; "0"] = used ++ l0 :: stdin w'
             /\ Text.strip l0 = "0")
        \/ (code = 1%Z
            /\ exists e more,
                stdout w'
                = [] ++ more ++ [print_chunk (warning ++ exn_message e)]
                /\ ((e = EOFError eof_msg /\ stdin w' = [])
                    \/ detect_schema (Conn store_maria) = Raise e))).
Proof.
  apply (main_menu_outcome
           (mkArgs "emociones.db" (Some "menu") EmptyString None None None None)
           (world_of (fun _ => Some (Conn store_maria)) ["1"; "Maria"; "0"])
           (Conn store_maria) eq_refl eq_refl).
Defined.

(** ** The latest row inside a filtered history *)

(** X16.  When the latest row of a subject passes the filters of a
    history request, that history is not empty, it holds the latest row,
    and its first row has the date, shift and id of the latest row; the
    first row is the latest row itself when no two rows of the history
    share date, shift and id.  On the one-table example the latest row
    of Maria, of the afternoon of 2024-01-02, heads her history from that
    date on with shift [t]. *)
Theorem fetch_ultimo_heads_filtered_historial :
  (forall (conn : Connection) (subject : string)
          (desde hasta turno_arg : option string) (r : Row),
      fetch_ultimo conn subject = Ok (Some r) ->
      from_date desde r = true ->
      to_date hasta r = true ->
      of_turno turno_arg r = true ->
      exists x rest,
        fetch_historial conn subject desde hasta turno_arg = Ok (x :: rest)
        /\ In r (x :: rest)
        /\ fecha x = fecha r /\ turno x = turno r /\ id x = id r
        /\ (keyed (x :: rest) -> x = r))
  /\ fetch_ultimo (Conn store_una) "Maria" = Ok (Some maria_t)
  /\ fetch_historial (Conn store_una) "Maria" (Some "2024-01-02") None
                     (Some "t") = Ok [maria_t]
  /\ fetch_historial (Conn store_una) "Maria" None (Some "2024-01-02") None
     = Ok [maria_t; maria_m].
Proof.
  split; [|repeat split; reflexivity].
  intros conn subject desde hasta turno_arg r Hu Hd Hh Ht.
  destruct (detect_schema conn) as [sch|e] eqn:Hs.
  - destruct (detect_schema_Ok_Conn _ _ Hs) as [st ->].
    rewrite (fetch_ultimo_spec _ _ _ Hs) in Hu.
    rewrite (fetch_historial_spec _ _ _ _ _ _ Hs).
    assert (Hf : filter (selected subject desde hasta turno_arg)
                        (records st sch)
                 = filter (fun x => from_date desde x && to_date hasta x
                                    && of_turno turno_arg x)
                          (candidates st sch subject)).
    { unfold candidates. rewrite <- filter_andb. apply filter_ext.
      intros x. unfold selected. now rewrite !andb_assoc. }
    rewrite Hf, <- filter_order_by_desc.
    destruct (Sql.order_by_desc row_key (candidates st sch subject))
      as [|x l]; [discriminate|].
    injection Hu as ->. simpl. rewrite Hd, Hh, Ht. simpl.
    eexists _, _. split; [reflexivity|]. repeat split; auto.
  - now rewrite (fetch_ultimo_raises _ _ _ Hs) in Hu.
Qed.

Lemma fetch_ultimo_heads_filtered_historial_witness :
  exists x rest,
    fetch_historial (Conn store_una) "Maria" (Some "2024-01-02") None
                    (Some "t") = Ok (x :: rest)
    /\ In maria_t (x :: rest)
    /\ fecha x = fecha maria_t /\ turno x = turno maria_t
    /\ id x = id maria_t
    /\ (keyed (x :: rest) -> x = maria_t).
Proof.
  apply (proj1 fetch_ultimo_heads_filtered_historial (Conn store_una)
           "Maria" (Some "2024-01-02") None (Some "t") maria_t);
    reflexivity.
Defined.

(** ** Edges of the shift filter and of the order *)

(** X19.  A shift argument made only of blanks is not an absent filter:
    it is in force and selects the rows whose shift is the empty text.
    The history then holds the rows of the history without shift filter
    whose shift is empty, each as often, in the same order when no two of
    them share date, shift and id, and raises what that history raises.
    On the example with a row without shift, two blanks, a tab or a
    no-break space select that row; no argument selects both rows. *)
Theorem fetch_historial_blank_turno :
  (forall (conn : Connection) (subject : string)
          (desde hasta : option string) (t : string),
      t <> EmptyString ->
      Text.strip t = EmptyString ->
      up_to_ties
        (fetch_historial conn subject desde hasta (Some t))
        (rows <- fetch_historial conn subject desde hasta None ;;
         Ok (filter (fun r => turno r =? EmptyString) rows)))
  /\ fetch_historial (Conn store_rosa) "Rosa" None None (Some "  ")
     = Ok [rosa_sin]
  /\ fetch_historial (Conn store_rosa) "Rosa" None None
                     (Some (Text.of_bytes [9]))
     = Ok [rosa_sin]
  /\ fetch_historial (Conn store_rosa) "Rosa" None None
                     (Some (Text.of_bytes [194; 160]))
     = Ok [rosa_sin]
  /\ fetch_historial (Conn store_rosa) "Rosa" None None None
     = Ok [rosa_sin; rosa_m]
  /\ fetch_historial (Conn store_maria) "Maria" None None (Some "  ")
     = Ok [].
Proof.
  split; [|repeat split; reflexivity].
  intros conn subject desde hasta t Ht Hs. apply up_to_ties_eq.
  rewrite (fetch_historial_turno_filter _ _ _ _ _ Ht).
  unfold normal_turno. now rewrite Hs.
Qed.

Lemma fetch_historial_blank_turno_witness :
  up_to_ties
    (fetch_historial (Conn store_rosa) "Rosa" None None (Some "  "))
    (rows <- fetch_historial (Conn store_rosa) "Rosa" None None None ;;
     Ok (filter (fun r => turno r =? EmptyString) rows)).
Proof.
  apply (proj1 fetch_historial_blank_turno (Conn store_rosa) "Rosa" None
           None "  ");
    [discriminate | reflexivity].
Defined.

Lemma key_leb_unpack (x y : Row) :
  key_le y x ->
  String.leb (fecha y) (fecha x) = true
  /\ (fecha y = fecha x ->
      String.leb (turno y) (turno x) = true
      /\ (turno y = turno x -> (id y <= id x)%Z)).
Proof.
  unfold key_le, Sql.key_leb, row_key, Sql.key_compare, String.leb.
  destruct (String.compare (fecha y) (fecha x)) eqn:Ef.
  - intros H. split; [reflexivity|]. intros _.
    destruct (String.compare (turno y) (turno x)) eqn:Et.
    + split; [reflexivity|]. intros _.
      destruct (Z.compare (id y) (id x)) eqn:Ei; try discriminate;
        apply Z.compare_le_iff; congruence.
    + split; [reflexivity|]. intros Heq. rewrite Heq, string_compare_refl in Et.
      discriminate.
    + discriminate.
  - intros _. split; [reflexivity|]. intros Heq.
    rewrite Heq, string_compare_refl in Ef. discriminate.
  - discriminate.
Qed.

Lemma descending_later (l1 l2 : list Row) (x y : Row) :
  descending (l1 ++ x :: l2) -> In y l2 -> key_le y x.
Proof.
  unfold descending. induction l1 as [|z l1 IH]; simpl; intros H Hy.
  - apply StronglySorted_inv in H as [_ Hall].
    rewrite Forall_forall in Hall. now apply Hall.
  - apply StronglySorted_inv in H as [H _]. now apply IH.
Qed.

(** X20.  Reading a history downwards, dates never increase; on one
    date the shifts never increase, so a row of shift T comes before a
    row of shift M; and on one date and shift the ids never increase. *)
Theorem fetch_historial_order (st : Store) (sch : Schema) (subject : string)
    (desde hasta turno_arg : option string) (above below : list Row)
    (x y : Row) :
  detect_schema (Conn st) = Ok sch ->
  fetch_historial (Conn st) subject desde hasta turno_arg
  = Ok (above ++ x :: below) ->
  In y below ->
  String.leb (fecha y) (fecha x) = true
  /\ (fecha y = fecha x ->
      String.leb (turno y) (turno x) = true
      /\ (turno y = turno x -> (id y <= id x)%Z)).
Proof.
  intros Hs Hh Hy. apply key_leb_unpack.
  apply (descending_later above below); [|exact Hy].
  rewrite (fetch_historial_spec _ _ _ _ _ _ Hs) in Hh.
  injection Hh as <-. apply sorted_rows_descending.
Qed.

Lemma fetch_historial_order_witness :
  String.leb (fecha maria_m) (fecha maria_t) = true
  /\ (fecha maria_m = fecha maria_t ->
      String.leb (turno maria_m) (turno maria_t) = true
      /\ (turno maria_m = turno maria_t -> (id maria_m <= id maria_t)%Z)).
Proof.
  apply (fetch_historial_order store_maria una_tabla "Maria" None None None
           [] [maria_m] maria_t maria_m eq_refl eq_refl).
  now left.
Defined.

(** ** Exporting again *)

Lemma filter_idem (A : Type) (p : A -> bool) (l : list A) :
  filter p (filter p l) = filter p l.
Proof.
  induction l as [|x l IH]; simpl; [reflexivity|].
  destruct (p x) eqn:E; simpl; [rewrite E|]; now rewrite ?IH.
Qed.

(** X21.  Exporting to a path that an earlier export wrote replaces it:
    two exports to one path, one after the other, leave the world that the
    second export alone would leave. *)
Theorem export_csv_overwrites (rows1 rows2 : list Row) (out : string)
    (w : World) :
  open_error w out = None ->
  (p <~ export_csv rows1 out ;; export_csv rows2 p) w
  = export_csv rows2 out w.
Proof.
  intros Ho. unfold bindIO, export_csv. rewrite Ho. simpl. rewrite Ho.
  unfold set_files. cbn [stdin stdout files databases open_error resolve].
  do 2 f_equal. unfold upsert. cbn [filter fst negb].
  rewrite String.eqb_refl. cbn [negb]. now rewrite filter_idem.
Qed.

Lemma export_csv_overwrites_witness :
  (p <~ export_csv [maria_m] "m.csv" ;; export_csv [maria_t] p)
    (world_of (fun _ => None) [])
  = export_csv [maria_t] "m.csv" (world_of (fun _ => None) []).
Proof.
  apply (export_csv_overwrites [maria_m] [maria_t] "m.csv"
           (world_of (fun _ => None) [])).
  reflexivity.
Defined.
